(** * silence_split: the orchestration logic of [silence_split.py]

    A shallow embedding of the Python script that cuts a long recording at
    detected silences.  The media engine (ffmpeg / ffprobe) is an oracle; the
    script's own work (parsing the engine's diagnostic lines, sorting the
    cache files, shifting the intervals, walking them, deciding which engine
    calls to issue) is modelled function by function.

    Conventions.
    - Python [str] is [string]; the file names the script builds are ASCII.
    - Python [float] timestamps are idealised as exact canonical rationals
      ([Qc]): no rounding, no infinities, no NaN.
    - Python [int] is [Z].
    - A raised exception is an [Err] result; the state reached so far (files
      written, engine calls issued) is kept.
    - The output directory is a list of named files in [os.listdir] order; it
      always exists ([os.makedirs] is not modelled), and names stand for the
      paths [os.path.join(output_dir, name)].
    - Logging is left out. *)

From Stdlib Require Import List String Ascii Bool Arith ZArith Lia.
From Stdlib Require Import QArith Qcanon Qround.
From Stdlib Require Import DecimalString DecimalN DecimalZ.
From Stdlib Require Import Permutation Sorted.
Import ListNotations.

Local Open Scope string_scope.
Local Open Scope list_scope.

(** ** Exceptions and results *)

Inductive error : Type :=
| ValueError          (* int(), float(), get_audio_codec *)
| IndexError          (* list index out of range *)
| UnboundLocalError   (* a local read before any assignment *)
| ZeroDivisionError
| JSONDecodeError     (* json.load on something that is not the cache format *)
| EngineError.        (* ffmpeg.Error: the subprocess failed *)

Inductive result (A : Type) : Type :=
| Ok (a : A)
| Err (e : error).
Arguments Ok {A} a.
Arguments Err {A} e.

Definition rbind {A B} (r : result A) (k : A -> result B) : result B :=
  match r with
  | Ok a => k a
  | Err e => Err e
  end.

Definition of_option {A} (e : error) (o : option A) : result A :=
  match o with
  | Some a => Ok a
  | None => Err e
  end.

Declare Scope res_scope.
Delimit Scope res_scope with res.
Notation "x <- c ;; k" := (rbind c (fun x => k))
  (at level 61, c at next level, right associativity) : res_scope.

(** ** Python string operations *)

Module PyStr.

(** [needle in s] *)
Fixpoint contains (needle s : string) : bool :=
  prefix needle s ||
  match s with
  | EmptyString => false
  | String _ r => contains needle r
  end.

Definition startswith (s p : string) : bool := prefix p s.

Fixpoint rev (s : string) : string :=
  match s with
  | EmptyString => EmptyString
  | String c r => rev r ++ String c EmptyString
  end.

Definition endswith (s suffix : string) : bool := prefix (rev suffix) (rev s).

(** [s.split(sep)] for a non-empty separator: the pieces between successive
    non-overlapping occurrences of [sep], scanning from the left.  [skip]
    counts the characters of a matched separator still to be passed over. *)
Fixpoint split_from (sep : string) (skip : nat) (s : string) : list string :=
  match s with
  | EmptyString => [EmptyString]
  | String c r =>
      match skip with
      | S k => split_from sep k r
      | O =>
          if prefix sep s then EmptyString :: split_from sep (length sep - 1) r
          else
            match split_from sep 0 r with
            | t :: ts => String c t :: ts
            | [] => [String c EmptyString]
            end
      end
  end.

Definition split (s sep : string) : list string := split_from sep 0 s.

(** What follows the prefix [p] in [s], when [s] starts with it. *)
Fixpoint after_prefix (p s : string) : option string :=
  match p, s with
  | EmptyString, _ => Some s
  | String a p', String b s' => if Ascii.eqb a b then after_prefix p' s' else None
  | String _ _, EmptyString => None
  end.

(** [l[i]] *)
Definition index {A} (l : list A) (i : nat) : result A :=
  of_option IndexError (nth_error l i).

Definition is_digit (c : ascii) : bool :=
  let n := nat_of_ascii c in (48 <=? n)%nat && (n <=? 57)%nat.

(** The characters [str.strip()] removes, among ASCII. *)
Definition is_space (c : ascii) : bool :=
  let n := nat_of_ascii c in
  ((9 <=? n)%nat && (n <=? 13)%nat) || ((28 <=? n)%nat && (n <=? 32)%nat).

Fixpoint lstrip (s : string) : string :=
  match s with
  | String c r => if is_space c then lstrip r else s
  | EmptyString => s
  end.

Definition strip (s : string) : string := rev (lstrip (rev (lstrip s))).

Fixpoint all_digits (s : string) : bool :=
  match s with
  | EmptyString => true
  | String c r => is_digit c && all_digits r
  end.

(** The longest prefix of decimal digits, and what follows it. *)
Fixpoint span_digits (s : string) : string * string :=
  match s with
  | String c r =>
      if is_digit c then let '(d, rest) := span_digits r in (String c d, rest)
      else (EmptyString, s)
  | EmptyString => (EmptyString, EmptyString)
  end.

(** A non-empty string of decimal digits as a number. *)
Definition num_of_digits (s : string) : option N :=
  option_map N.of_uint (NilZero.uint_of_string s).

(** [int(s)] on ASCII text: surrounding white space, an optional sign, then
    decimal digits.  (Digit-group underscores are not modelled: both call
    sites pass text that holds none.) *)
Definition int (s : string) : result Z :=
  match strip s with
  | EmptyString => Err ValueError
  | String c r =>
      if Ascii.eqb c "-"
      then of_option ValueError (option_map (fun n => (- Z.of_N n)%Z) (num_of_digits r))
      else if Ascii.eqb c "+"
      then of_option ValueError (option_map Z.of_N (num_of_digits r))
      else of_option ValueError (option_map Z.of_N (num_of_digits (String c r)))
  end.

(** [str(n)] / the f-string rendering of an integer. *)
Definition str_N (n : N) : string := NilZero.string_of_uint (N.to_uint n).
Definition str_nat (n : nat) : string := str_N (N.of_nat n).
Definition str_Z (z : Z) : string := NilZero.string_of_int (Z.to_int z).

(** [os.path.splitext(name)[0]] for a bare file name: cut at the last dot,
    unless only dots precede it. *)
Fixpoint cut_last_dot (s : string) : option string :=
  match s with
  | EmptyString => None
  | String c r =>
      match cut_last_dot r with
      | Some root => Some (String c root)
      | None => if Ascii.eqb c "." then Some EmptyString else None
      end
  end.

Fixpoint splitext_root (s : string) : string :=
  match s with
  | String "." r => String "." (splitext_root r)
  | _ => match cut_last_dot s with
         | Some root => root
         | None => s
         end
  end.

End PyStr.

(** ** Timestamps *)

Definition time : Type := Qc.

Definition time_of_Z (z : Z) : time := Q2Qc (inject_Z z).

Definition ten : time := time_of_Z 10.
Definition two : time := time_of_Z 2.

(** [a < b] on timestamps, as a test. *)
Definition ltb (a b : time) : bool :=
  match (a ?= b)%Qc with
  | Lt => true
  | _ => false
  end.

Definition interval : Type := time * time.

(** [float(s)] for the finite decimal literals: surrounding white space, an
    optional sign, digits with an optional fraction, an optional exponent.
    Anything else is a [ValueError]; the non-finite literals ([inf], [nan])
    have no counterpart among the rationals and digit-group underscores are
    not modelled. *)
Module PyFloat.

Definition digits_value (s : string) : N :=
  match PyStr.num_of_digits s with
  | Some n => n
  | None => 0%N
  end.

(** mantissa text -> (integer digits, fraction digits, rest) *)
Definition mantissa (s : string) : option (string * string * string) :=
  let '(ip, r) := PyStr.span_digits s in
  match r with
  | String "." r' =>
      let '(fp, r'') := PyStr.span_digits r' in
      if ((length ip =? 0) && (length fp =? 0))%nat then None else Some (ip, fp, r'')
  | _ => if (length ip =? 0)%nat then None else Some (ip, EmptyString, r)
  end.

Definition exponent (s : string) : option Z :=
  match s with
  | EmptyString => Some 0%Z
  | String c r =>
      if Ascii.eqb c "e" || Ascii.eqb c "E" then
        match r with
        | EmptyString => None
        | String c' d =>
            if Ascii.eqb c' "-"
            then option_map (fun n => (- Z.of_N n)%Z) (PyStr.num_of_digits d)
            else if Ascii.eqb c' "+"
            then option_map Z.of_N (PyStr.num_of_digits d)
            else option_map Z.of_N (PyStr.num_of_digits r)
        end
      else None
  end.

Definition scale (q : Q) (e : Z) : Q :=
  match e with
  | Z0 => q
  | Zpos p => (q * inject_Z (Z.pow_pos 10 p))%Q
  | Zneg p => (q / inject_Z (Z.pow_pos 10 p))%Q
  end.

Definition unsigned (s : string) : option Q :=
  match mantissa s with
  | None => None
  | Some (ip, fp, rest) =>
      match exponent rest with
      | None => None
      | Some e =>
          let num := Z.of_N (digits_value (ip ++ fp)) in
          let den := Z.to_pos (Z.pow 10 (Z.of_nat (length fp))) in
          Some (scale (num # den)%Q e)
      end
  end.

Definition float (s : string) : result time :=
  match PyStr.strip s with
  | EmptyString => Err ValueError
  | String c r =>
      if Ascii.eqb c "-"
      then of_option ValueError (option_map (fun q => Q2Qc (- q)%Q) (unsigned r))
      else if Ascii.eqb c "+"
      then of_option ValueError (option_map Q2Qc (unsigned r))
      else of_option ValueError (option_map Q2Qc (unsigned (String c r)))
  end.

End PyFloat.

(** ** Silence Detector: reading the engine's diagnostic lines
    ([detect_silence], the loop over [stderr_output.splitlines()]) *)

Module Detector.

(** The loop's variables: [start] (unbound until a start marker is read) and
    the list [silences]. *)
Record vars : Type := mkVars {
  start : option time;
  silences : list interval
}.

Definition init : vars := mkVars None [].

(** [float(line.split('silence_start: ')[1])] *)
Definition read_start (line : string) : result time :=
  (field <- PyStr.index (PyStr.split line "silence_start: ") 1 ;;
   PyFloat.float field)%res.

(** [float(line.split('silence_end: ')[1].split(' |')[0])] *)
Definition read_end (line : string) : result time :=
  (field <- PyStr.index (PyStr.split line "silence_end: ") 1 ;;
   head <- PyStr.index (PyStr.split field " |") 0 ;;
   PyFloat.float head)%res.

(** One iteration of the loop body: the two [if]s run in this order on every
    line, and the tuple [(start, end)] is built after [end] is assigned. *)
Definition step (v : vars) (line : string) : result vars :=
  (v1 <- (if PyStr.contains "silence_start" line
          then s <- read_start line ;; Ok (mkVars (Some s) (silences v))
          else Ok v) ;;
   if PyStr.contains "silence_end" line
   then e <- read_end line ;;
        s <- of_option UnboundLocalError (start v1) ;;
        Ok (mkVars (start v1) (silences v1 ++ [(s, e)]))
   else Ok v1)%res.

Fixpoint run (v : vars) (lines : list string) : result vars :=
  match lines with
  | [] => Ok v
  | line :: rest => (v' <- step v line ;; run v' rest)%res
  end.

(** What [detect_silence] returns for the given diagnostic lines. *)
Definition parse (lines : list string) : result (list interval) :=
  (v <- run init lines ;; Ok (silences v))%res.

End Detector.

(** ** Ordering the cache files ([sort_chunks]) *)

Module Sorter.

(** [re.search(r'chunk_(\d+)', filename)]: the digits of the leftmost
    occurrence of [chunk_] that is followed by a digit, taken greedily. *)
Fixpoint search_chunk_digits (s : string) : option string :=
  match s with
  | EmptyString => None
  | String _ r =>
      match PyStr.after_prefix "chunk_" s with
      | Some rest =>
          let '(d, _) := PyStr.span_digits rest in
          if (length d =? 0)%nat then search_chunk_digits r else Some d
      | None => search_chunk_digits r
      end
  end.

(** The sort key: [Some n] is the integer [n], [None] is [float('inf')]. *)
Definition key : Type := option N.

Definition extract_chunk_number (filename : string) : key :=
  match search_chunk_digits filename with
  | Some d => PyStr.num_of_digits d
  | None => None
  end.

Definition key_lt (a b : key) : bool :=
  match a, b with
  | Some x, Some y => (x <? y)%N
  | Some _, None => true
  | None, _ => false
  end.

(** [sorted(l, key=k)] is stable: an element goes after every element with a
    strictly smaller key and before the rest. *)
Fixpoint insert_by {A} (k : A -> key) (x : A) (l : list A) : list A :=
  match l with
  | [] => [x]
  | y :: r => if key_lt (k y) (k x) then y :: insert_by k x r else x :: y :: r
  end.

Definition sorted_by {A} (k : A -> key) (l : list A) : list A :=
  fold_right (insert_by k) [] l.

Definition sort_chunks (chunk_files : list string) : list string :=
  sorted_by extract_chunk_number chunk_files.

(** [x] may stand before [y] in a sorted list: the key of [y] is not the
    smaller one. *)
Definition in_order {A} (k : A -> key) (x y : A) : Prop :=
  key_lt (k y) (k x) = false.

(** The key is a number, not [float('inf')]. *)
Definition numbered {A} (k : A -> key) (x : A) : bool :=
  match k x with
  | Some _ => true
  | None => false
  end.

End Sorter.

(** ** The media engine and the output directory *)

(** What [ffmpeg.probe] reports: [format.duration], the streams as
    ([codec_type], [codec_name]) and [format.format_name]. *)
Record probe_info : Type := mkProbe {
  duration : time;
  streams : list (string * string);
  format_name : string
}.

(** The subprocess invocations the script makes. *)
Inductive call : Type :=
| Probe
| ExtractWav (ss t : Z) (out : string)
| SilenceDetect (wav : string) (noise : Z) (d : time)
| ExtractAudio (ss : time) (to : option time) (out acodec fmt : string)
| Frame (ss : time) (out : string).

(** The engine as an oracle: what a probe of the source answers ([None]: the
    probe fails), the diagnostic lines of a silence detection (the decoded
    stderr after [splitlines()], for a segment file, a noise threshold and a
    minimum duration), and whether a given invocation exits with success. *)
Record engine : Type := mkEngine {
  probe_answer : option probe_info;
  diagnostics : string -> Z -> time -> list string;
  succeeds : call -> bool
}.

Inductive content : Type :=
| Wav                          (* an intermediate segment *)
| Cache (l : list interval)    (* a sidecar file: a JSON array of pairs *)
| Audio                        (* a split *)
| Image                        (* a thumbnail *)
| Unreadable.                  (* anything json.load or the unpacking rejects *)

(** The output directory, in [os.listdir] order, and the engine calls issued
    so far (oldest first). *)
Record state : Type := mkState {
  files : list (string * content);
  trace : list call
}.

Definition M (A : Type) : Type := state -> result A * state.

Definition ret {A} (a : A) : M A := fun st => (Ok a, st).
Definition raise {A} (e : error) : M A := fun st => (Err e, st).
Definition bind {A B} (m : M A) (k : A -> M B) : M B :=
  fun st =>
    match m st with
    | (Ok a, st') => k a st'
    | (Err e, st') => (Err e, st')
    end.
Definition lift {A} (r : result A) : M A := fun st => (r, st).

Declare Scope m_scope.
Delimit Scope m_scope with M.
Notation "x <- c ;; k" := (bind c (fun x => k))
  (at level 61, c at next level, right associativity) : m_scope.
Notation "c ;;; k" := (bind c (fun _ => k))
  (at level 61, right associativity) : m_scope.

Fixpoint for_each {A B} (f : A -> M B) (l : list A) : M (list B) :=
  match l with
  | [] => ret []
  | a :: r => (b <- f a ;; bs <- for_each f r ;; ret (b :: bs))%M
  end.

Module Fs.

Fixpoint lookup (name : string) (fs : list (string * content)) : option content :=
  match fs with
  | [] => None
  | (n, c) :: r => if String.eqb name n then Some c else lookup name r
  end.

(** [os.path.exists] for a name inside the output directory *)
Definition present (name : string) (fs : list (string * content)) : bool :=
  match lookup name fs with
  | Some _ => true
  | None => false
  end.

(** Creating or overwriting a file. *)
Fixpoint write (name : string) (c : content) (fs : list (string * content))
  : list (string * content) :=
  match fs with
  | [] => [(name, c)]
  | (n, c') :: r => if String.eqb name n then (n, c) :: r else (n, c') :: write name c r
  end.

Definition listdir (fs : list (string * content)) : list string := map fst fs.

End Fs.

Definition exists_ (name : string) : M bool :=
  fun st => (Ok (Fs.present name (files st)), st).

Definition listdir : M (list string) :=
  fun st => (Ok (Fs.listdir (files st)), st).

Definition write_file (name : string) (c : content) : M unit :=
  fun st => (Ok tt, mkState (Fs.write name c (files st)) (trace st)).

(** [json.load] of a sidecar file followed by the unpacking of its pairs *)
Definition load_json (name : string) : M (list interval) :=
  fun st =>
    match Fs.lookup name (files st) with
    | Some (Cache l) => (Ok l, st)
    | _ => (Err JSONDecodeError, st)
    end.

Section Engine.

Variable E : engine.

(** [ffmpeg.probe(mkv_file)] *)
Definition probe : M probe_info :=
  fun st =>
    (of_option EngineError (probe_answer E), mkState (files st) (trace st ++ [Probe])).

(** [....run()] of an invocation that writes nothing we track *)
Definition run (c : call) : M unit :=
  fun st =>
    let st' := mkState (files st) (trace st ++ [c]) in
    if succeeds E c then (Ok tt, st') else (Err EngineError, st').

(** [....run(overwrite_output=True)] of an invocation that writes [out] *)
Definition run_to (c : call) (out : string) (kind : content) : M unit :=
  (run c ;;; write_file out kind)%M.

End Engine.

(** ** Chunker ([extract_audio_chunks]) *)

Module Chunker.

(** [math.ceil(duration / chunk_duration)] *)
Definition num_chunks (T : time) (d : Z) : result Z :=
  if (d =? 0)%Z then Err ZeroDivisionError
  else Ok (Qceiling (T / time_of_Z d)%Qc).

(** [f"chunk_{i + 1}.wav"] *)
Definition chunk_name (i : nat) : string :=
  "chunk_" ++ PyStr.str_nat (i + 1) ++ ".wav".



Section WithEngine.

Variable E : engine.
Variable chunk_duration : Z.

(** The body of the loop for index [i]. *)
Definition extract_chunk (i : nat) : M string :=
  let start_time := (Z.of_nat i * chunk_duration)%Z in
  let output_chunk := chunk_name i in
  (there <- exists_ output_chunk ;;
   (if there then ret tt
    else run_to E (ExtractWav start_time chunk_duration output_chunk) output_chunk Wav) ;;;
   ret output_chunk)%M.

Definition extract_audio_chunks : M (list string) :=
  (info <- probe E ;;
   n <- lift (num_chunks (duration info) chunk_duration) ;;
   for_each extract_chunk (seq 0 (Z.to_nat n)))%M.

End WithEngine.

End Chunker.

(** ** Splitter ([split_original_by_silence]) *)

Module Splitter.

(** [f"_silence_{silence_threshold}.json"] *)
Definition cache_suffix (silence_threshold : Z) : string :=
  "_silence_" ++ PyStr.str_Z silence_threshold ++ ".json".

(** The comprehension over [os.listdir(output_dir)]. *)
Definition select (silence_threshold : Z) (names : list string) : list string :=
  filter (fun f => PyStr.endswith f (cache_suffix silence_threshold)
                   && negb (PyStr.startswith f "."))
         names.

(** [int(chunk_file.split('_')[1]) - 1] *)
Definition chunk_idx (chunk_file : string) : result Z :=
  (field <- PyStr.index (PyStr.split chunk_file "_") 1 ;;
   n <- PyStr.int field ;;
   Ok (n - 1)%Z)%res.

(** [[(start + chunk_offset, end + chunk_offset) for start, end in silences]] *)
Definition adjust (chunk_offset : Z) (silences : list interval) : list interval :=
  map (fun '(s, e) => (s + time_of_Z chunk_offset, e + time_of_Z chunk_offset)%Qc) silences.

(** One iteration of the loading loop: the intervals it appends to
    [all_silences]. *)
Definition load_chunk (chunk_duration : Z) (chunk_file : string) : M (list interval) :=
  (silences <- load_json chunk_file ;;
   idx <- lift (chunk_idx chunk_file) ;;
   ret (adjust (idx * chunk_duration)%Z silences))%M.

Fixpoint load_all (chunk_duration : Z) (chunk_files : list string) : M (list interval) :=
  match chunk_files with
  | [] => ret []
  | f :: r =>
      (adjusted <- load_chunk chunk_duration f ;;
       more <- load_all chunk_duration r ;;
       ret (adjusted ++ more))%M
  end.

(** [f"split_{split_count + 1}.{container_format}"] and its [.jpg] twin *)
Definition split_name (split_count : nat) (ext : string) : string :=
  "split_" ++ PyStr.str_nat (split_count + 1) ++ "." ++ ext.

(** The two counters of the walk. *)
Record cursor : Type := mkCursor {
  prev_end : time;
  split_count : nat
}.

Definition start_cursor : cursor := mkCursor (time_of_Z 0) 0.

(** The body of [get_audio_codec] after the probe: the codec of the first
    audio stream and [format_name.split(',')[0]]. *)
Definition codec_and_container (info : probe_info) : result (string * string) :=
  match filter (fun s => String.eqb (fst s) "audio") (streams info) with
  | s :: _ =>
      Ok (snd s,
          match PyStr.split (format_name info) "," with
          | f :: _ => f
          | [] => EmptyString
          end)
  | [] => Err ValueError
  end.

(** A ranged audio extraction that spans at least ten seconds (any other
    call passes). *)
Definition long_enough (c : call) : Prop :=
  match c with
  | ExtractAudio ss (Some to) _ _ _ => (ten <= to - ss)%Qc
  | _ => True
  end.

Section WithEngine.

Variable E : engine.

(** [get_audio_codec] *)
Definition get_audio_codec : M (string * string) :=
  (info <- probe E ;; lift (codec_and_container info))%M.

(** [extract_middle_frame] *)
Definition extract_middle_frame (start_time end_time : time) (output_image : string)
  : M unit :=
  let middle_time := ((start_time + end_time) / two)%Qc in
  run_to E (Frame middle_time output_image) output_image Image.

Variables audio_codec container_format : string.

(** The body of the loop over [all_silences]. *)
Definition visit (c : cursor) (silence : interval) : M cursor :=
  let '(silence_start, silence_end) := silence in
  if ltb (silence_start - prev_end c)%Qc ten
  then ret (mkCursor silence_end (split_count c + 1))
  else
    let output_audio := split_name (split_count c) container_format in
    let output_image := split_name (split_count c) "jpg" in
    (there <- exists_ output_audio ;;
     (if there then ret tt
      else run_to E (ExtractAudio (prev_end c) (Some silence_start) output_audio
                                  audio_codec container_format)
                  output_audio Audio) ;;;
     pictured <- exists_ output_image ;;
     (if pictured then ret tt
      else extract_middle_frame (prev_end c) silence_start output_image) ;;;
     ret (mkCursor silence_end (split_count c + 1)))%M.

Fixpoint walk (c : cursor) (all_silences : list interval) : M cursor :=
  match all_silences with
  | [] => ret c
  | silence :: rest => (c' <- visit c silence ;; walk c' rest)%M
  end.

(** What follows the loop: the remainder of the source. *)
Definition finish (c : cursor) : M unit :=
  let final_audio := split_name (split_count c) container_format in
  let final_image := split_name (split_count c) "jpg" in
  (there <- exists_ final_audio ;;
   (if there then ret tt
    else run_to E (ExtractAudio (prev_end c) None final_audio
                                audio_codec container_format)
                final_audio Audio) ;;;
   pictured <- exists_ final_image ;;
   if pictured then ret tt
   else info <- probe E ;;
        extract_middle_frame (prev_end c) (duration info) final_image)%M.

End WithEngine.

Definition split_original_by_silence (E : engine) (chunk_duration silence_threshold : Z)
  : M unit :=
  (names <- listdir ;;
   let chunk_files := Sorter.sort_chunks (select silence_threshold names) in
   codec <- get_audio_codec E ;;
   all_silences <- load_all chunk_duration chunk_files ;;
   c <- walk E (fst codec) (snd codec) start_cursor all_silences ;;
   finish E (fst codec) (snd codec) c)%M.

End Splitter.

(** ** The whole run ([process_mkv_file]) *)

Module Pipeline.

Section WithEngine.

Variable E : engine.
Variables (chunk_duration silence_threshold : Z) (silence_duration : time).

(** [detect_silence]: run the filter, then read its diagnostic lines. *)
Definition detect_silence (wav_file : string) : M (list interval) :=
  (run E (SilenceDetect wav_file silence_threshold silence_duration) ;;;
   lift (Detector.parse (diagnostics E wav_file silence_threshold silence_duration)))%M.

(** [os.path.splitext(chunk_file)[0] + f"_silence_{silence_threshold}.json"] *)
Definition silence_cache_file (chunk_file : string) : string :=
  PyStr.splitext_root chunk_file ++ Splitter.cache_suffix silence_threshold.

(** Step 2, for one segment. *)
Definition detect_chunk (chunk_file : string) : M unit :=
  (cached <- exists_ (silence_cache_file chunk_file) ;;
   if cached then ret tt
   else silences <- detect_silence chunk_file ;;
        write_file (silence_cache_file chunk_file) (Cache silences))%M.

Definition process_mkv_file : M unit :=
  (chunk_files <- Chunker.extract_audio_chunks E chunk_duration ;;
   for_each detect_chunk chunk_files ;;;
   Splitter.split_original_by_silence E chunk_duration silence_threshold)%M.

End WithEngine.

End Pipeline.

(** ** The name of a segment's sidecar file

    [process_mkv_file] names the cache of the segment numbered [n] by cutting
    [.wav] off [chunk_<n>.wav] and appending the suffix. *)
Definition cache_name (n : N) (silence_threshold : Z) : string :=
  "chunk_" ++ PyStr.str_N n ++ Splitter.cache_suffix silence_threshold.

(** ** Conditions on a diagnostic stream, used to state when the reading of
    it can fail *)

Module Stream.

Definition has_start (line : string) : bool := PyStr.contains "silence_start" line.
Definition has_end (line : string) : bool := PyStr.contains "silence_end" line.




End Stream.

(** ** Relations between the states of a run *)

Module Run.

(** Every file of [fs] is still in [fs'], with the same content. *)
Definition keeps (fs fs' : list (string * content)) : Prop :=
  forall name c, Fs.lookup name fs = Some c -> Fs.lookup name fs' = Some c.

(** [st'] comes after [st]: no file was lost or changed, and the calls of
    [st] are the first calls of [st']. *)
Definition grows (st st' : state) : Prop :=
  keeps (files st) (files st') /\ exists new, trace st' = trace st ++ new.

(** A computation that only ever adds files and calls. *)
Definition monotone {A} (m : M A) : Prop :=
  forall st, grows st (snd (m st)).

(** The names the Splitter gives its outputs for the container [fmt]. *)
Definition split_output (fmt name : string) : Prop :=
  exists k, name = Splitter.split_name k fmt \/ name = Splitter.split_name k "jpg".

(** [st'] lists the files of [st] in the same order, followed by new files
    whose names all satisfy [P]. *)
Definition appends (P : string -> Prop) (st st' : state) : Prop :=
  exists extra,
    Fs.listdir (files st') = Fs.listdir (files st) ++ extra /\ Forall P extra.

End Run.

(** ** Ordered intervals and ordered extractions *)

Module Timeline.

(** The intervals follow one another from [lo] on: each starts no earlier
    than the previous one ended (or than [lo]) and ends no earlier than it
    starts. *)
Fixpoint time_ordered (lo : time) (l : list interval) : Prop :=
  match l with
  | [] => True
  | (s, e) :: r => (lo <= s)%Qc /\ (s <= e)%Qc /\ time_ordered e r
  end.

(** The audio extractions among [calls] follow one another from [lo] on:
    each starts no earlier than the previous one ended (or than [lo]), and a
    ranged one ends no earlier than it starts. *)
Fixpoint ascending_ranges (lo : time) (calls : list call) : Prop :=
  match calls with
  | [] => True
  | ExtractAudio ss (Some to) _ _ _ :: r =>
      (lo <= ss)%Qc /\ (ss <= to)%Qc /\ ascending_ranges to r
  | ExtractAudio ss None _ _ _ :: r => (lo <= ss)%Qc /\ ascending_ranges ss r
  | _ :: r => ascending_ranges lo r
  end.





(** Where the walk leaves [prev_end]: at the end of the last interval. *)
Definition final_end (p : time) (l : list interval) : time :=
  last (map snd l) p.

End Timeline.

Module Segment.

(** The intervals of one segment's cache are time-ordered from 0 on and none
    ends after the segment does. *)
Definition within (chunk_duration : Z) (l : list interval) : Prop :=
  Timeline.time_ordered (time_of_Z 0) l /\
  Forall (fun i : interval => (snd i <= time_of_Z chunk_duration)%Qc) l.

End Segment.

(** ** Well-formed detector output *)

Module Transcript.

(** One detected silence as the engine reports it: a line with the start
    marker only, later a line with the end marker only, and the numbers the
    script reads from them. *)
Record event : Type := mkEvent {
  start_line : string;
  start_at : time;
  end_line : string;
  end_at : time
}.

Definition well_read (ev : event) : Prop :=
  Stream.has_start (start_line ev) = true /\
  Stream.has_end (start_line ev) = false /\
  Detector.read_start (start_line ev) = Ok (start_at ev) /\
  Stream.has_start (end_line ev) = false /\
  Stream.has_end (end_line ev) = true /\
  Detector.read_end (end_line ev) = Ok (end_at ev).

Definition lines_of (evs : list event) : list string :=
  flat_map (fun ev => [start_line ev; end_line ev]) evs.

Definition intervals_of (evs : list event) : list interval :=
  map (fun ev => (start_at ev, end_at ev)) evs.

(** The line holds one of the two markers. *)
Definition marked (line : string) : bool :=
  Stream.has_start line || Stream.has_end line.

End Transcript.

(** ** Where the files of a run come from *)

Module Provenance.



(** The file an engine call is issued for: the output of an extraction or
    of a frame grab, the cache of a silence detection.  A probe has none. *)
Definition target (c : call) : option string :=
  match c with
  | Probe => None
  | ExtractWav _ _ out => Some out
  | SilenceDetect wav noise _ => Some (Pipeline.silence_cache_file noise wav)
  | ExtractAudio _ _ out _ _ => Some out
  | Frame _ out => Some out
  end.

Definition targets (calls : list call) : list string :=
  flat_map (fun c => match target c with
                     | Some out => [out]
                     | None => []
                     end) calls.

(** The step from [st] to the outcome [out] issued calls only for files that
    were missing in [st], none twice, and if it ended well every one of
    these files is there. *)
Definition sparing {A} (st : state) (out : result A * state) : Prop :=
  Run.keeps (files st) (files (snd out)) /\
  exists new,
    trace (snd out) = trace st ++ new /\
    Forall (fun o => Fs.present o (files st) = false) (targets new) /\
    NoDup (targets new) /\
    (forall a, fst out = Ok a ->
               Forall (fun o => Fs.present o (files (snd out)) = true) (targets new)).

Definition spares {A} (m : M A) (st : state) : Prop := sparing st (m st).


End Provenance.

(** ** Directories the Splitter can read *)

Module Directory.

(** Every file the Splitter would select as a cache is one: it holds a list
    of intervals and its name yields a chunk index. *)
Definition sound (silence_threshold : Z) (fs : list (string * content)) : Prop :=
  forall name,
    In name (Splitter.select silence_threshold (Fs.listdir fs)) ->
    (exists l, Fs.lookup name fs = Some (Cache l)) /\
    (exists idx, Splitter.chunk_idx name = Ok idx).

End Directory.

Module Resume.

(** Running [m] from [st] leaves a directory the Splitter can read, if [st]
    is one. *)
Definition keeps_sound {A} (silence_threshold : Z) (m : M A) (st : state) : Prop :=
  Directory.sound silence_threshold (files st) ->
  Directory.sound silence_threshold (files (snd (m st))).

(** No split of the container [fmt] has a name that carries the cache
    suffix. *)
Definition plain_container (silence_threshold : Z) (fmt : string) : Prop :=
  forall k, PyStr.endswith (Splitter.split_name k fmt)
                           (Splitter.cache_suffix silence_threshold) = false.

End Resume.

(** ** Concrete inputs used by the examples *)

Module Examples.

Definition two_markers : list string :=
  ["[silencedetect @ 0x55] silence_start: 12.5";
   "frame=  100 fps=0.0 q=-0.0 size=N/A";
   "[silencedetect @ 0x55] silence_end: 15.25 | silence_duration: 2.75"].


(** A Matroska source of 5400 seconds with an AAC track; every invocation
    succeeds. *)
Definition source_5400 : probe_info :=
  mkProbe (time_of_Z 5400) [("video", "h264"); ("audio", "aac")] "matroska,webm".

Definition quiet_engine : engine :=
  mkEngine (Some source_5400) (fun _ _ _ => []) (fun _ => true).

(** The output directory after chunking and detection at -40 dB with
    2700-second segments, one silence [2000, 2010] found in the first. *)
Definition scenario_dir : list (string * content) :=
  [("chunk_1.wav", Wav); ("chunk_2.wav", Wav);
   ("chunk_1_silence_-40.json", Cache [(time_of_Z 2000, time_of_Z 2010)]);
   ("chunk_2_silence_-40.json", Cache [])].


(** Two silences, the first one right at the beginning. *)
Definition early_silence : list interval :=
  [(time_of_Z 5, time_of_Z 7); (time_of_Z 100, time_of_Z 110)].

(** A directory with one well-named cache and one stray file that carries the
    cache suffix but no chunk number. *)
Definition stray_dir : list (string * content) :=
  [("notes_silence_-40.json", Cache []);
   ("chunk_1_silence_-40.json", Cache [(time_of_Z 5, time_of_Z 7)])].

(** The cache of the first segment alone. *)
Definition first_cache : list (string * content) :=
  [("chunk_1_silence_-40.json", Cache [(time_of_Z 5, time_of_Z 7)])].



(** An engine that reports one silence, [2000, 2010], in the first segment of
    the 5400-second source. *)
Definition talk_engine : engine :=
  mkEngine (Some source_5400)
           (fun wav _ _ =>
              if String.eqb wav "chunk_1.wav"
              then ["[silencedetect @ 0x55] silence_start: 2000";
                    "[silencedetect @ 0x55] silence_end: 2010 | silence_duration: 10"]
              else [])
           (fun _ => true).


(** Three caches, listed in the order 10, 2, 1. *)
Definition three_cached (n : N) : list interval :=
  if (n =? 10)%N then [(time_of_Z 1, time_of_Z 4)]
  else if (n =? 2)%N then [(time_of_Z 30, time_of_Z 35)]
  else [(time_of_Z 100, time_of_Z 103); (time_of_Z 2000, time_of_Z 2002)].

Definition three_caches : list (string * content) :=
  [("chunk_10_silence_-40.json", Cache (three_cached 10));
   ("chunk_2_silence_-40.json", Cache (three_cached 2));
   ("chunk_1_silence_-40.json", Cache (three_cached 1))].

(** A source that carries a video and a subtitle track but no audio. *)
Definition source_mute : probe_info :=
  mkProbe (time_of_Z 5400) [("video", "h264"); ("subtitle", "subrip")] "matroska,webm".

Definition mute_engine : engine :=
  mkEngine (Some source_mute) (fun _ _ _ => []) (fun _ => true).

(** The silence that [two_markers] reports. *)
Definition two_markers_event : Transcript.event :=
  Transcript.mkEvent
    "[silencedetect @ 0x55] silence_start: 12.5" (Q2Qc (125 # 10))
    "[silencedetect @ 0x55] silence_end: 15.25 | silence_duration: 2.75" (Q2Qc (1525 # 100)).

End Examples.

(** * Properties *)

(** ** Results *)





(** ** The Silence Detector's reading of the diagnostic lines *)

Module DetectorFacts.
Import Detector Stream.



(** A line with the start marker and no end marker only records its start. *)
Lemma step_start_only v line s :
  has_start line = true -> has_end line = false -> read_start line = Ok s ->
  step v line = Ok (mkVars (Some s) (silences v)).
Proof.
  unfold has_start, has_end, step. intros -> -> ->. reflexivity.
Qed.

(** A line with the end marker only appends the pair made of the recorded
    start and its own end. *)
Lemma step_end_only v line s e :
  has_start line = false -> has_end line = true ->
  start v = Some s -> read_end line = Ok e ->
  step v line = Ok (mkVars (Some s) (silences v ++ [(s, e)])).
Proof.
  unfold has_start, has_end, step. intros -> -> Hs ->. simpl. rewrite Hs. reflexivity.
Qed.

(** A line with neither marker changes nothing. *)
Lemma step_other v line :
  has_start line = false -> has_end line = false -> step v line = Ok v.
Proof.
  unfold has_start, has_end, step. intros -> ->. reflexivity.
Qed.


Lemma run_app v a b :
  run v (a ++ b) = rbind (run v a) (fun v' => run v' b).
Proof.
  revert v. induction a as [|l a IH]; intros v; simpl; [reflexivity|].
  destruct (step v l); simpl; auto.
Qed.




End DetectorFacts.





(** The failure the claim describes, on the stream it has in mind: the first
    marker met is an end marker whose own value reads well. *)
Lemma detector_unbound_start (noise : list string) (line : string) (e : time)
      (rest : list string) :
  Forall (fun l => Stream.has_start l = false /\ Stream.has_end l = false) noise ->
  Stream.has_start line = false ->
  Stream.has_end line = true ->
  Detector.read_end line = Ok e ->
  Detector.parse (noise ++ line :: rest) = Err UnboundLocalError.
Proof.
  intros Hn Hs He Hr. unfold Detector.parse. rewrite DetectorFacts.run_app.
  assert (Hrun : Detector.run Detector.init noise = Ok Detector.init).
  { generalize Detector.init. induction Hn as [|l ls [H1 H2] _ IH]; intros v; simpl.
    - reflexivity.
    - rewrite (DetectorFacts.step_other v l H1 H2). simpl. apply IH. }
  rewrite Hrun. simpl. unfold Detector.step.
  fold (Stream.has_start line) (Stream.has_end line). rewrite Hs, He. simpl.
  rewrite Hr. reflexivity.
Qed.

(** ** Timestamps and files *)

Ltac run_m :=
  unfold Splitter.extract_middle_frame, run_to, bind, exists_, run, write_file,
    probe, lift, raise, ret;
  simpl.

Lemma ltb_lt (a b : time) : ltb a b = true <-> (a < b)%Qc.
Proof.
  unfold ltb. rewrite Qclt_alt. destruct (a ?= b)%Qc; split; congruence.
Qed.

Lemma ltb_ge (a b : time) : ltb a b = false <-> (b <= a)%Qc.
Proof.
  split; intros H.
  - apply Qcnot_lt_le. intros Hlt. apply ltb_lt in Hlt. congruence.
  - destruct (ltb a b) eqn:Hl; [|reflexivity].
    apply ltb_lt in Hl. exfalso. exact (Qcle_not_lt _ _ H Hl).
Qed.

Lemma append_inj_l (a x y : string) : (a ++ x = a ++ y)%string -> x = y.
Proof.
  induction a as [|c a IH]; simpl; intros H; [exact H|].
  injection H as H. auto.
Qed.

Module FsFacts.
Import Fs.

Lemma lookup_write_same name c fs : lookup name (write name c fs) = Some c.
Proof.
  induction fs as [|[n c'] fs IH]; simpl.
  - rewrite String.eqb_refl. reflexivity.
  - destruct (String.eqb name n) eqn:Hn; simpl; rewrite Hn; auto.
Qed.

Lemma lookup_write_other name n c fs :
  name <> n -> lookup name (write n c fs) = lookup name fs.
Proof.
  intros Hne. induction fs as [|[m c'] fs IH]; simpl.
  - apply String.eqb_neq in Hne. rewrite Hne. reflexivity.
  - destruct (String.eqb n m) eqn:Hnm; simpl.
    + apply String.eqb_eq in Hnm. subst m.
      apply String.eqb_neq in Hne. rewrite Hne. reflexivity.
    + rewrite IH. reflexivity.
Qed.

Lemma present_write_same name c fs : present name (write name c fs) = true.
Proof. unfold present. rewrite lookup_write_same. reflexivity. Qed.

Lemma present_write_other name n c fs :
  name <> n -> present name (write n c fs) = present name fs.
Proof. intros H. unfold present. rewrite lookup_write_other by exact H. reflexivity. Qed.

Lemma listdir_write_new name c fs :
  present name fs = false -> listdir (write name c fs) = listdir fs ++ [name].
Proof.
  unfold present, listdir. induction fs as [|[n c'] fs IH]; simpl; intros H.
  - reflexivity.
  - destruct (String.eqb name n); [discriminate|]. simpl. rewrite IH by exact H.
    reflexivity.
Qed.

Lemma listdir_write_old name c fs :
  present name fs = true -> listdir (write name c fs) = listdir fs.
Proof.
  unfold present, listdir. induction fs as [|[n c'] fs IH]; simpl; intros H.
  - discriminate.
  - destruct (String.eqb name n); simpl; [reflexivity|]. rewrite IH by exact H.
    reflexivity.
Qed.

End FsFacts.

(** ** The Splitter's walk over the global interval list *)

Module SplitterFacts.
Import Splitter.

Lemma split_name_ext k ext ext' : ext <> ext' -> split_name k ext <> split_name k ext'.
Proof.
  unfold split_name. intros Hne H. apply Hne.
  apply append_inj_l in H. apply append_inj_l in H. apply append_inj_l in H. exact H.
Qed.

Section Walk.

Variable E : engine.
Variables codec fmt : string.


(** The iteration on any other interval, when the engine works and neither
    output is on disk yet. *)
Lemma visit_emit c (s e : time) st :
  (ten <= s - prev_end c)%Qc ->
  (forall x, succeeds E x = true) ->
  fmt <> "jpg" ->
  Fs.present (split_name (split_count c) fmt) (files st) = false ->
  Fs.present (split_name (split_count c) "jpg") (files st) = false ->
  visit E codec fmt c (s, e) st =
  (Ok (mkCursor e (split_count c + 1)),
   mkState
     (Fs.write (split_name (split_count c) "jpg") Image
        (Fs.write (split_name (split_count c) fmt) Audio (files st)))
     (trace st ++
      [ExtractAudio (prev_end c) (Some s) (split_name (split_count c) fmt) codec fmt;
       Frame ((prev_end c + s) / two)%Qc (split_name (split_count c) "jpg")])).
Proof.
  intros Hlong Hok Hfmt Ha Hi. apply ltb_ge in Hlong.
  unfold visit. rewrite Hlong.
  run_m. rewrite Ha, ?Hok. simpl.
  rewrite FsFacts.present_write_other by (apply split_name_ext; congruence).
  rewrite Hi, ?Hok. simpl. rewrite <- app_assoc. reflexivity.
Qed.

(** The iteration when both outputs are already on disk. *)
Lemma visit_cached c (s e : time) st :
  Fs.present (split_name (split_count c) fmt) (files st) = true ->
  Fs.present (split_name (split_count c) "jpg") (files st) = true ->
  visit E codec fmt c (s, e) st = (Ok (mkCursor e (split_count c + 1)), st).
Proof.
  intros Ha Hi. unfold visit. destruct (ltb _ _); [reflexivity|].
  unfold bind, exists_, ret. simpl. rewrite Ha, Hi. reflexivity.
Qed.

(** Whatever the directory and the engine, an iteration only adds calls, and
    a ranged extraction among them spans at least ten seconds. *)
Lemma visit_trace c silence st :
  exists new,
    trace (snd (visit E codec fmt c silence st)) = trace st ++ new /\
    Forall Splitter.long_enough new.
Proof.
  destruct silence as [s e]. unfold visit.
  destruct (ltb (s - prev_end c)%Qc ten) eqn:Hl.
  - exists []. simpl. rewrite app_nil_r. auto.
  - apply ltb_ge in Hl.
    run_m.
    destruct (Fs.present (split_name (split_count c) fmt) (files st)); simpl.
    + destruct (Fs.present (split_name (split_count c) "jpg") (files st)); simpl.
      * exists []. rewrite app_nil_r. auto.
      * eexists [_]. destruct (succeeds E _); simpl; (split; [reflexivity|]);
          repeat constructor.
    + destruct (succeeds E (ExtractAudio _ _ _ _ _)); simpl.
      * destruct (Fs.present _ _); simpl.
        -- eexists [_]. split; [reflexivity|]. repeat constructor. exact Hl.
        -- eexists [_; _]. rewrite <- app_assoc.
           destruct (succeeds E _); simpl; (split; [reflexivity|]);
             repeat constructor; exact Hl.
      * eexists [_]. split; [reflexivity|]. repeat constructor. exact Hl.
Qed.

Lemma visit_count c silence st c' st' :
  visit E codec fmt c silence st = (Ok c', st') ->
  split_count c' = (split_count c + 1)%nat /\ prev_end c' = snd silence.
Proof.
  destruct silence as [s e]. unfold visit.
  destruct (ltb _ _).
  - intros H; injection H as <- <-. auto.
  - run_m.
    destruct (Fs.present _ _); simpl.
    + destruct (Fs.present _ _); simpl.
      * intros H; injection H as <- <-. auto.
      * destruct (succeeds E _); simpl; intros H; inversion H; subst; auto.
    + destruct (succeeds E _); simpl; [|discriminate].
      destruct (Fs.present _ _); simpl.
      * intros H; injection H as <- <-. auto.
      * destruct (succeeds E _); simpl; intros H; inversion H; subst; auto.
Qed.

Lemma walk_cons c silence rest st :
  walk E codec fmt c (silence :: rest) st =
  match visit E codec fmt c silence st with
  | (Ok c', st') => walk E codec fmt c' rest st'
  | (Err e, st') => (Err e, st')
  end.
Proof. reflexivity. Qed.

Lemma walk_trace all : forall c st,
  exists new,
    trace (snd (walk E codec fmt c all st)) = trace st ++ new /\
    Forall Splitter.long_enough new.
Proof.
  induction all as [|silence all IH]; intros c st; simpl.
  - exists []. rewrite app_nil_r. auto.
  - unfold bind. destruct (visit_trace c silence st) as (n1 & H1 & F1).
    destruct (visit E codec fmt c silence st) as [[c1|e1] st1]; simpl in *.
    + destruct (IH c1 st1) as (n2 & H2 & F2).
      exists (n1 ++ n2). rewrite H2, H1, app_assoc. split; [reflexivity|].
      apply Forall_app. auto.
    + exists n1. auto.
Qed.

Lemma walk_count all : forall c st c' st',
  walk E codec fmt c all st = (Ok c', st') ->
  split_count c' = (split_count c + List.length all)%nat.
Proof.
  induction all as [|silence all IH]; intros c st c' st'; simpl.
  - intros H; injection H as <- <-. lia.
  - unfold bind. destruct (visit E codec fmt c silence st) as [[c1|e1] st1] eqn:Hv;
      [|discriminate].
    intros H. apply IH in H. apply visit_count in Hv as [Hc _]. lia.
Qed.


End Walk.

End SplitterFacts.

Module SplitterRun.
Import Splitter.

Lemma load_chunk_state d f st : snd (load_chunk d f st) = st.
Proof.
  unfold load_chunk, load_json. run_m.
  destruct (Fs.lookup f (files st)) as [[| l | | |]|]; simpl; try reflexivity.
  destruct (chunk_idx f); reflexivity.
Qed.

Lemma load_all_state d fs : forall st, snd (load_all d fs st) = st.
Proof.
  induction fs as [|f fs IH]; intros st; simpl; [reflexivity|].
  unfold bind. pose proof (load_chunk_state d f st) as H1.
  destruct (load_chunk d f st) as [[a|e] st1]; simpl in *; subst st1; [|reflexivity].
  pose proof (IH st) as H2.
  destruct (load_all d fs st) as [[b|e] st2]; simpl in *; subst st2; reflexivity.
Qed.

Lemma get_audio_codec_trace E st :
  trace (snd (get_audio_codec E st)) = trace st ++ [Probe] /\
  files (snd (get_audio_codec E st)) = files st.
Proof.
  unfold get_audio_codec. run_m.
  destruct (probe_answer E) as [info|]; simpl; auto.
Qed.

Lemma get_audio_codec_ok E st info codec :
  probe_answer E = Some info ->
  codec_and_container info = Ok codec ->
  get_audio_codec E st = (Ok codec, mkState (files st) (trace st ++ [Probe])).
Proof.
  intros Hp Hc. unfold get_audio_codec. run_m. rewrite Hp. simpl. rewrite Hc.
  reflexivity.
Qed.

(** The remainder of the source is extracted and pictured when the engine
    works and neither output is on disk, whatever [prev_end] and the
    duration are. *)
Lemma finish_emit E codec fmt c st info :
  probe_answer E = Some info ->
  (forall x, succeeds E x = true) ->
  fmt <> "jpg" ->
  Fs.present (split_name (split_count c) fmt) (files st) = false ->
  Fs.present (split_name (split_count c) "jpg") (files st) = false ->
  finish E codec fmt c st =
  (Ok tt,
   mkState
     (Fs.write (split_name (split_count c) "jpg") Image
        (Fs.write (split_name (split_count c) fmt) Audio (files st)))
     (trace st ++
      [ExtractAudio (prev_end c) None (split_name (split_count c) fmt) codec fmt;
       Probe;
       Frame ((prev_end c + duration info) / two)%Qc (split_name (split_count c) "jpg")])).
Proof.
  intros Hp Hok Hfmt Ha Hi. unfold finish. run_m.
  rewrite Ha, ?Hok. simpl.
  rewrite FsFacts.present_write_other
    by (apply SplitterFacts.split_name_ext; congruence).
  rewrite Hi, Hp. simpl. rewrite ?Hok. simpl. rewrite <- !app_assoc. reflexivity.
Qed.

Lemma finish_cached E codec fmt c st :
  Fs.present (split_name (split_count c) fmt) (files st) = true ->
  Fs.present (split_name (split_count c) "jpg") (files st) = true ->
  finish E codec fmt c st = (Ok tt, st).
Proof.
  intros Ha Hi. unfold finish. run_m. rewrite Ha, Hi. reflexivity.
Qed.

Lemma finish_trace E codec fmt c st :
  exists new,
    trace (snd (finish E codec fmt c st)) = trace st ++ new /\
    Forall long_enough new.
Proof.
  unfold finish. run_m.
  destruct (Fs.present (split_name (split_count c) fmt) (files st)); simpl.
  - destruct (Fs.present _ _); simpl.
    + exists []. rewrite app_nil_r. auto.
    + destruct (probe_answer E); simpl.
      * eexists [_; _]. rewrite <- app_assoc.
        destruct (succeeds E _); simpl; (split; [reflexivity|]); repeat constructor.
      * eexists [_]. split; [reflexivity|]. repeat constructor.
  - destruct (succeeds E _); simpl.
    + destruct (Fs.present _ _); simpl.
      * eexists [_]. split; [reflexivity|]. repeat constructor.
      * destruct (probe_answer E); simpl.
        -- eexists [_; _; _]. rewrite <- !app_assoc.
           destruct (succeeds E _); simpl; (split; [reflexivity|]); repeat constructor.
        -- eexists [_; _]. rewrite <- !app_assoc. split; [reflexivity|].
           repeat constructor.
    + eexists [_]. split; [reflexivity|]. repeat constructor.
Qed.

(** The run of the Splitter, stage by stage. *)
Lemma split_original_by_silence_stages E d thr st :
  split_original_by_silence E d thr st =
  match get_audio_codec E st with
  | (Ok codec, st1) =>
      match load_all d (Sorter.sort_chunks (select thr (Fs.listdir (files st)))) st1 with
      | (Ok all, st2) =>
          match walk E (fst codec) (snd codec) start_cursor all st2 with
          | (Ok c, st3) => finish E (fst codec) (snd codec) c st3
          | (Err e, st3) => (Err e, st3)
          end
      | (Err e, st2) => (Err e, st2)
      end
  | (Err e, st1) => (Err e, st1)
  end.
Proof. reflexivity. Qed.

End SplitterRun.

(** ** File names: rendering a number and reading it back *)

Module NameFacts.
Import PyStr.

Lemma append_assoc (a b c : string) : ((a ++ b) ++ c = a ++ (b ++ c))%string.
Proof. induction a as [|x a IH]; simpl; [reflexivity|]. rewrite IH. reflexivity. Qed.

Lemma append_nil_r (a : string) : (a ++ "" = a)%string.
Proof. induction a as [|x a IH]; simpl; [reflexivity|]. rewrite IH. reflexivity. Qed.



Lemma rev_append (a b : string) : rev (a ++ b) = (rev b ++ rev a)%string.
Proof.
  induction a as [|x a IH]; simpl.
  - rewrite append_nil_r. reflexivity.
  - rewrite IH, append_assoc. reflexivity.
Qed.

Lemma rev_involutive (a : string) : rev (rev a) = a.
Proof.
  induction a as [|x a IH]; simpl; [reflexivity|].
  rewrite rev_append, IH. reflexivity.
Qed.

Lemma all_digits_append (a b : string) :
  all_digits (a ++ b) = all_digits a && all_digits b.
Proof.
  induction a as [|x a IH]; simpl; [reflexivity|].
  rewrite IH, andb_assoc. reflexivity.
Qed.

Lemma all_digits_rev (a : string) : all_digits (rev a) = all_digits a.
Proof.
  induction a as [|x a IH]; simpl; [reflexivity|].
  rewrite all_digits_append, IH. simpl. rewrite andb_true_r. apply andb_comm.
Qed.

Lemma digit_not_space (c : ascii) : is_digit c = true -> is_space c = false.
Proof.
  unfold is_digit, is_space. intros H.
  apply andb_true_iff in H as [H1 H2].
  apply Nat.leb_le in H1. apply Nat.leb_le in H2.
  destruct (Nat.leb_spec (nat_of_ascii c) 13); [lia|].
  destruct (Nat.leb_spec (nat_of_ascii c) 32); [lia|].
  rewrite !andb_false_r. reflexivity.
Qed.

Lemma lstrip_digits (s : string) : all_digits s = true -> lstrip s = s.
Proof.
  destruct s as [|c r]; simpl; [reflexivity|].
  intros H. apply andb_true_iff in H as [H _].
  rewrite (digit_not_space c H). reflexivity.
Qed.

Lemma strip_digits (s : string) : all_digits s = true -> strip s = s.
Proof.
  intros H. unfold strip. rewrite (lstrip_digits s H).
  rewrite lstrip_digits by (rewrite all_digits_rev; exact H).
  apply rev_involutive.
Qed.

Lemma all_digits_uint (d : Decimal.uint) :
  all_digits (NilEmpty.string_of_uint d) = true.
Proof. induction d; simpl; auto. Qed.

Lemma to_uint_nonnil (n : N) : N.to_uint n <> Decimal.Nil.
Proof.
  destruct n as [|p]; simpl; [discriminate|].
  apply DecimalPos.Unsigned.to_uint_nonnil.
Qed.

Lemma str_N_digits (n : N) : all_digits (str_N n) = true.
Proof.
  unfold str_N, NilZero.string_of_uint.
  pose proof (all_digits_uint (N.to_uint n)) as H.
  destruct (N.to_uint n); auto.
Qed.

Lemma num_of_digits_str_N (n : N) : num_of_digits (str_N n) = Some n.
Proof.
  unfold num_of_digits, str_N.
  rewrite NilZero.usu by apply to_uint_nonnil.
  simpl. rewrite DecimalN.Unsigned.of_to. reflexivity.
Qed.


(** [int(str(n)) == n] *)
Lemma int_str_N (n : N) : int (str_N n) = Ok (Z.of_N n).
Proof.
  unfold int. rewrite (strip_digits _ (str_N_digits n)).
  pose proof (str_N_digits n) as Hd. pose proof (num_of_digits_str_N n) as Hn.
  destruct (str_N n) as [|c r]; [discriminate|].
  simpl in Hd. apply andb_true_iff in Hd as [Hc _].
  destruct (Ascii.eqb_spec c "-") as [->|_]; [discriminate|].
  destruct (Ascii.eqb_spec c "+") as [->|_]; [discriminate|].
  rewrite Hn. reflexivity.
Qed.

Lemma prefix_char (c x : ascii) (r : string) :
  prefix (String c EmptyString) (String x r) = Ascii.eqb c x.
Proof.
  simpl. destruct (ascii_dec c x) as [->|Hne].
  - rewrite Ascii.eqb_refl. destruct r; reflexivity.
  - symmetry. apply Ascii.eqb_neq. exact Hne.
Qed.

Lemma split_from_cons (c : ascii) (r : string) :
  split_from "_" 0 (String c r) =
  if Ascii.eqb "_" c then EmptyString :: split_from "_" 0 r
  else match split_from "_" 0 r with
       | t :: ts => String c t :: ts
       | [] => [String c EmptyString]
       end.
Proof.
  change (split_from "_" 0 (String c r))
    with (if prefix "_" (String c r)
          then EmptyString :: split_from "_" 0 r
          else match split_from "_" 0 r with
               | t :: ts => String c t :: ts
               | [] => [String c EmptyString]
               end).
  rewrite prefix_char. reflexivity.
Qed.

(** [(digits + "_" + rest).split("_")] starts with the digits. *)
Lemma split_underscore (d rest : string) :
  all_digits d = true ->
  split (d ++ String "_" rest) "_" = d :: split rest "_".
Proof.
  unfold split. induction d as [|c d IH]; intros H.
  - simpl append. rewrite split_from_cons. reflexivity.
  - simpl in H. apply andb_true_iff in H as [Hc Hd].
    simpl append. rewrite split_from_cons, (IH Hd).
    destruct (Ascii.eqb_spec "_" c) as [<-|_]; [discriminate|reflexivity].
Qed.

Lemma cut_last_dot_wav (a : string) : cut_last_dot (a ++ ".wav") = Some a.
Proof.
  induction a as [|c a IH]; [reflexivity|].
  simpl. simpl in IH. rewrite IH. reflexivity.
Qed.

Lemma splitext_root_plain (c : ascii) (r : string) :
  c <> "."%char ->
  splitext_root (String c r) =
  match cut_last_dot (String c r) with
  | Some root => root
  | None => String c r
  end.
Proof.
  intros H.
  destruct c as [[|] [|] [|] [|] [|] [|] [|] [|]]; try reflexivity.
  exfalso. apply H. reflexivity.
Qed.

End NameFacts.

(** The segment number read back from a cache name, less one. *)
Lemma chunk_idx_cache_name (n : N) (thr : Z) :
  Splitter.chunk_idx (cache_name n thr) = Ok (Z.of_N n - 1)%Z.
Proof.
  unfold Splitter.chunk_idx, cache_name, Splitter.cache_suffix.
  change ("chunk_" ++ PyStr.str_N n ++ "_silence_" ++ PyStr.str_Z thr ++ ".json")%string
    with (String "c" (String "h" (String "u" (String "n" (String "k" (String "_"
            (PyStr.str_N n ++ String "_" ("silence_" ++ PyStr.str_Z thr ++ ".json")))))))%string).
  assert (Hs : PyStr.split
            (String "c" (String "h" (String "u" (String "n" (String "k" (String "_"
               (PyStr.str_N n ++ String "_" ("silence_" ++ PyStr.str_Z thr ++ ".json")))))))%string)
            "_"
          = "chunk" :: PyStr.str_N n ::
            PyStr.split ("silence_" ++ PyStr.str_Z thr ++ ".json")%string "_").
  { rewrite <- (NameFacts.split_underscore _ _ (NameFacts.str_N_digits n)).
    unfold PyStr.split. rewrite !NameFacts.split_from_cons. simpl.
    destruct (PyStr.split_from "_" 0 _); reflexivity. }
  rewrite Hs. simpl. rewrite NameFacts.int_str_N. reflexivity.
Qed.

(** The cache name [process_mkv_file] builds for the segment of index [i]. *)
Lemma silence_cache_file_chunk (thr : Z) (i : nat) :
  Pipeline.silence_cache_file thr (Chunker.chunk_name i)
  = cache_name (N.of_nat (i + 1)) thr.
Proof.
  unfold Pipeline.silence_cache_file, Chunker.chunk_name, cache_name, PyStr.str_nat.
  rewrite <- (NameFacts.append_assoc "chunk_" _ (Splitter.cache_suffix thr)).
  f_equal.
  rewrite <- (NameFacts.append_assoc "chunk_" _ ".wav").
  set (stem := ("chunk_" ++ PyStr.str_N (N.of_nat (i + 1)))%string).
  assert (Hc : exists r, stem = String "c" r) by (eexists; reflexivity).
  destruct Hc as [r Hr].
  pose proof (NameFacts.cut_last_dot_wav stem) as Hcut.
  rewrite Hr in *. simpl append in *.
  rewrite NameFacts.splitext_root_plain by discriminate.
  rewrite Hcut. reflexivity.
Qed.


(** ** Sorting by chunk number *)

Module SorterFacts.
Import Sorter.

Lemma key_lt_asym (a b : key) : key_lt a b = true -> key_lt b a = false.
Proof.
  destruct a as [x|], b as [y|]; simpl; try congruence.
  intros H. apply N.ltb_lt in H. apply N.ltb_ge. lia.
Qed.

Section ByKey.

Context {A : Type}.
Variable k : A -> key.

Lemma insert_by_perm (x : A) (l : list A) : Permutation (x :: l) (insert_by k x l).
Proof.
  induction l as [|y l IH]; simpl; [apply Permutation_refl|].
  destruct (key_lt (k y) (k x)).
  - apply perm_trans with (y :: x :: l); [apply perm_swap|].
    apply perm_skip. exact IH.
  - apply Permutation_refl.
Qed.

Lemma sorted_by_perm (l : list A) : Permutation l (sorted_by k l).
Proof.
  induction l as [|x l IH]; simpl; [constructor|].
  apply perm_trans with (x :: sorted_by k l); [apply perm_skip; exact IH|].
  apply insert_by_perm.
Qed.

Lemma insert_by_hd (x y : A) (l : list A) :
  in_order k y x -> HdRel (in_order k) y l -> HdRel (in_order k) y (insert_by k x l).
Proof.
  intros Hyx Hl. destruct l as [|z l]; simpl.
  - constructor. exact Hyx.
  - inversion Hl; subst. destruct (key_lt (k z) (k x)); constructor; assumption.
Qed.

Lemma insert_by_sorted (x : A) (l : list A) :
  Sorted (in_order k) l -> Sorted (in_order k) (insert_by k x l).
Proof.
  induction 1 as [|y l Hs IH Hhd]; simpl.
  - repeat constructor.
  - destruct (key_lt (k y) (k x)) eqn:Hlt.
    + constructor; [exact IH|]. apply insert_by_hd; [|exact Hhd].
      unfold in_order. apply key_lt_asym. exact Hlt.
    + constructor; [constructor; assumption|]. constructor. exact Hlt.
Qed.

Lemma sorted_by_sorted (l : list A) : Sorted (in_order k) (sorted_by k l).
Proof.
  induction l as [|x l IH]; simpl; [constructor|].
  apply insert_by_sorted. exact IH.
Qed.

(** An element without a number goes right after the numbered ones. *)
Lemma insert_unnumbered (x : A) (nums rest : list A) :
  k x = None ->
  Forall (fun y => k y <> None) nums ->
  Forall (fun y => k y = None) rest ->
  insert_by k x (nums ++ rest) = nums ++ x :: rest.
Proof.
  intros Hx Hn Hr. induction Hn as [|y nums Hy _ IH]; simpl.
  - destruct rest as [|z rest]; [reflexivity|].
    inversion Hr as [|? ? Hz _]; subst. simpl. rewrite Hz, Hx. reflexivity.
  - rewrite Hx. destruct (k y) as [n|]; [|congruence]. simpl. rewrite IH.
    reflexivity.
Qed.

(** A numbered element finds its place among the numbered ones. *)
Lemma insert_numbered (x : A) (nums rest : list A) (n : N) :
  k x = Some n ->
  Forall (fun y => k y = None) rest ->
  insert_by k x (nums ++ rest) = insert_by k x nums ++ rest.
Proof.
  intros Hx Hr. induction nums as [|y nums IH]; simpl.
  - destruct rest as [|z rest]; [reflexivity|].
    inversion Hr as [|? ? Hz _]; subst. simpl. rewrite Hz. reflexivity.
  - destruct (key_lt (k y) (k x)); simpl; [rewrite IH|]; reflexivity.
Qed.

Lemma insert_by_numbered (x : A) (l : list A) :
  k x <> None -> Forall (fun y => k y <> None) l ->
  Forall (fun y => k y <> None) (insert_by k x l).
Proof.
  intros Hx Hl. eapply Permutation_Forall; [apply insert_by_perm|].
  constructor; assumption.
Qed.

(** The sorted list is the numbered elements in ascending order followed by
    the others in their original order. *)
Lemma sorted_by_split (l : list A) :
  sorted_by k l
  = sorted_by k (filter (numbered k) l) ++ filter (fun x => negb (numbered k x)) l.
Proof.
  assert (Hnum : forall l, Forall (fun y => k y <> None) (sorted_by k (filter (numbered k) l))).
  { clear l. intros l. induction l as [|x l IH]; [constructor|].
    cbn [filter]. destruct (numbered k x) eqn:Hn; [|exact IH].
    cbn [sorted_by fold_right]. apply insert_by_numbered; [|exact IH].
    unfold numbered in Hn. destruct (k x); congruence. }
  assert (Hrest : forall l, Forall (fun y => k y = None)
                                   (filter (fun x => negb (numbered k x)) l)).
  { clear l. intros l. apply Forall_forall. intros y Hy.
    apply filter_In in Hy as [_ Hy]. unfold numbered in Hy.
    destruct (k y); [discriminate|reflexivity]. }
  induction l as [|x l IH]; [reflexivity|].
  cbn [sorted_by fold_right filter]. fold (sorted_by k l). rewrite IH.
  destruct (numbered k x) eqn:Hn; cbn [negb]; unfold numbered in Hn.
  - destruct (k x) as [n|] eqn:Hx; [|discriminate].
    cbn [sorted_by fold_right]. fold (sorted_by k (filter (numbered k) l)).
    apply (insert_numbered x _ _ n Hx). apply Hrest.
  - destruct (k x) as [n|] eqn:Hx; [discriminate|].
    apply insert_unnumbered; [exact Hx | apply Hnum | apply Hrest].
Qed.

End ByKey.

End SorterFacts.

(** The cache files come out of [sort_chunks] as a rearrangement of the
    listing, with keys never decreasing, and the names without a chunk number
    after all the others, in listing order. *)
Theorem sort_chunks_ascending_strays_last (chunk_files : list string) :
  Permutation chunk_files (Sorter.sort_chunks chunk_files) /\
  Sorted (Sorter.in_order Sorter.extract_chunk_number)
         (Sorter.sort_chunks chunk_files) /\
  Sorter.sort_chunks chunk_files
  = Sorter.sort_chunks
      (filter (Sorter.numbered Sorter.extract_chunk_number) chunk_files)
    ++ filter (fun f => negb (Sorter.numbered Sorter.extract_chunk_number f))
              chunk_files.
Proof.
  split; [apply SorterFacts.sorted_by_perm|].
  split; [apply (SorterFacts.sorted_by_sorted Sorter.extract_chunk_number)|].
  apply (SorterFacts.sorted_by_split Sorter.extract_chunk_number chunk_files).
Qed.

(** C1, as stated, fails: the intervals cached for segment number 1 are left
    where they are, not moved by one chunk duration. *)
Lemma first_segment_is_not_shifted :
  Splitter.load_chunk 2700 (cache_name 1 (-40)) (mkState Examples.first_cache [])
  = (Ok [(time_of_Z 5, time_of_Z 7)], mkState Examples.first_cache []) /\
  (time_of_Z 5, time_of_Z 7)
  <> ((time_of_Z 5 + time_of_Z (1 * 2700))%Qc, (time_of_Z 7 + time_of_Z (1 * 2700))%Qc).
Proof.
  split; [reflexivity|].
  intros H. apply (f_equal (fun p => this (fst p))) in H. vm_compute in H.
  discriminate H.
Qed.

(** C1, amended -- Every interval [s, e] stored in the cache of the segment
    numbered n (numbering from 1, the cache being [chunk_<n>_silence_<t>.json])
    is mapped to [s + (n - 1) d, e + (n - 1) d], where d is the chunk
    duration: the offset is the start of the segment in the source. *)
Theorem cache_intervals_shift_by_segment_start (chunk_duration silence_threshold : Z)
        (n : N) (st : state) (silences : list interval) :
  Fs.lookup (cache_name n silence_threshold) (files st) = Some (Cache silences) ->
  Splitter.load_chunk chunk_duration (cache_name n silence_threshold) st =
  (Ok (map (fun p =>
              (fst p + time_of_Z ((Z.of_N n - 1) * chunk_duration),
               snd p + time_of_Z ((Z.of_N n - 1) * chunk_duration))%Qc)
           silences),
   st).
Proof.
  intros H. unfold Splitter.load_chunk, load_json. run_m. rewrite H. simpl.
  rewrite chunk_idx_cache_name. simpl. f_equal. f_equal.
  unfold Splitter.adjust. apply map_ext. intros [s e]. reflexivity.
Qed.

(** The second segment: its intervals move by one chunk duration. *)
Lemma cache_intervals_shift_by_segment_start_witness :
  Splitter.load_chunk 2700 (cache_name 2 (-40))
    (mkState [(cache_name 2 (-40), Cache [(time_of_Z 5, time_of_Z 7)])] [])
  = (Ok (map (fun p =>
                (fst p + time_of_Z ((Z.of_N 2 - 1) * 2700),
                 snd p + time_of_Z ((Z.of_N 2 - 1) * 2700))%Qc)
             [(time_of_Z 5, time_of_Z 7)]),
     mkState [(cache_name 2 (-40), Cache [(time_of_Z 5, time_of_Z 7)])] []).
Proof.
  apply (cache_intervals_shift_by_segment_start 2700 (-40) 2
           (mkState [(cache_name 2 (-40), Cache [(time_of_Z 5, time_of_Z 7)])] [])
           [(time_of_Z 5, time_of_Z 7)]).
  reflexivity.
Defined.

(** The cache that [process_mkv_file] writes for the segment of index [i]
    (the one the Chunker cut from [i * chunk_duration]) is read back by the
    Splitter with chunk index [i]: writer and reader agree on the offset. *)
Theorem cache_of_segment_reads_back_its_index (silence_threshold : Z) (i : nat) :
  Splitter.chunk_idx (Pipeline.silence_cache_file silence_threshold (Chunker.chunk_name i))
  = Ok (Z.of_nat i).
Proof.
  rewrite silence_cache_file_chunk, chunk_idx_cache_name. f_equal. lia.
Qed.

(** Equalities between closed values that hold timestamps. *)
Ltac eq_times :=
  repeat match goal with
         | |- @eq Qc _ _ => apply Qc_is_canon; vm_compute; reflexivity
         | |- @eq time _ _ => apply Qc_is_canon; vm_compute; reflexivity
         | |- _ => progress f_equal
         end.

(** Two file names that differ in their literal part. *)
Ltac distinct_names :=
  let H := fresh in intro H; cbv in H; discriminate H.



(** The gap in the numbering: with a first silence at [5, 7] no [split_1]
    file is ever produced; the outputs are numbered 2 and 3. *)
Lemma numbering_gap_example :
  map fst (files (snd (Splitter.walk Examples.quiet_engine "aac" "matroska"
                         Splitter.start_cursor Examples.early_silence (mkState [] []))))
  = ["split_2.matroska"; "split_2.jpg"].
Proof. reflexivity. Qed.

(** C7 -- Whatever the interval list (time-ordered or not), the directory and
    the engine, every ranged audio extraction the Splitter issues spans at
    least ten seconds; only the final extraction, which has no end bound, is
    exempt. *)
Theorem ranged_splits_span_ten_seconds (E : engine) (chunk_duration silence_threshold : Z)
        (st : state) :
  exists new,
    trace (snd (Splitter.split_original_by_silence E chunk_duration silence_threshold st))
    = trace st ++ new /\
    Forall Splitter.long_enough new.
Proof.
  rewrite SplitterRun.split_original_by_silence_stages.
  destruct (SplitterRun.get_audio_codec_trace E st) as [Ht _].
  destruct (Splitter.get_audio_codec E st) as [[codec|e] st1]; simpl in Ht;
    [|exists [Probe]; simpl; split; [exact Ht|repeat constructor]].
  pose proof (SplitterRun.load_all_state chunk_duration
                (Sorter.sort_chunks
                   (Splitter.select silence_threshold (Fs.listdir (files st))))
                st1) as Hl.
  destruct (Splitter.load_all chunk_duration _ st1) as [[all|e] st2];
    simpl in Hl; subst st2;
    [|exists [Probe]; simpl; split; [exact Ht|repeat constructor]].
  destruct (SplitterFacts.walk_trace E (fst codec) (snd codec) all
              Splitter.start_cursor st1) as (n1 & H1 & F1).
  destruct (Splitter.walk E (fst codec) (snd codec) Splitter.start_cursor all st1)
    as [[c|e] st3]; simpl in H1.
  - destruct (SplitterRun.finish_trace E (fst codec) (snd codec) c st3) as (n2 & H2 & F2).
    exists (Probe :: n1 ++ n2). rewrite H2, H1, Ht, <- !app_assoc. simpl.
    split; [reflexivity|]. constructor; [exact I|]. apply Forall_app. auto.
  - exists (Probe :: n1). simpl. rewrite H1, Ht, <- app_assoc. simpl.
    split; [reflexivity|]. constructor; [exact I|]. exact F1.
Qed.



(** C8 -- A source of 5400 seconds, 2700-second segments, threshold -40 dB,
    and caches that hold the single silence [2000, 2010]: on a directory
    without split files the Splitter produces exactly two splits, [0, 2000)
    and from 2010 to the end of the source, with thumbnails at 1000 and 3705
    seconds. *)
Theorem scenario_one_silence_two_splits (E : engine) (info : probe_info)
        (codec fmt : string) :
  probe_answer E = Some info ->
  duration info = time_of_Z 5400 ->
  Splitter.get_audio_codec E (mkState Examples.scenario_dir [])
  = (Ok (codec, fmt), mkState Examples.scenario_dir [Probe]) ->
  (forall x, succeeds E x = true) ->
  fmt <> "jpg" ->
  let r := Splitter.split_original_by_silence E 2700 (-40)
             (mkState Examples.scenario_dir []) in
  fst r = Ok tt /\
  trace (snd r) =
  [Probe;
   ExtractAudio (time_of_Z 0) (Some (time_of_Z 2000)) ("split_1." ++ fmt)%string codec fmt;
   Frame (time_of_Z 1000) "split_1.jpg";
   ExtractAudio (time_of_Z 2010) None ("split_2." ++ fmt)%string codec fmt;
   Probe;
   Frame (time_of_Z 3705) "split_2.jpg"] /\
  map fst (files (snd r)) =
  map fst Examples.scenario_dir ++
  [("split_1." ++ fmt)%string; "split_1.jpg"; ("split_2." ++ fmt)%string; "split_2.jpg"].
Proof.
  intros Hp Hd Hc Hok Hfmt r. subst r.
  rewrite SplitterRun.split_original_by_silence_stages, Hc. cbn [fst snd].
  assert (Hload :
    Splitter.load_all 2700
      (Sorter.sort_chunks (Splitter.select (-40) (Fs.listdir Examples.scenario_dir)))
      (mkState Examples.scenario_dir [Probe])
    = (Ok [(time_of_Z 2000, time_of_Z 2010)], mkState Examples.scenario_dir [Probe]))
    by reflexivity.
  cbn [files]. rewrite Hload, SplitterFacts.walk_cons.
  rewrite SplitterFacts.visit_emit;
    [ | vm_compute; discriminate | exact Hok | exact Hfmt | reflexivity | reflexivity ].
  cbn [Splitter.walk ret].
  rewrite (SplitterRun.finish_emit E codec fmt _ _ info Hp Hok Hfmt);
    [ | cbn [files]; rewrite !FsFacts.present_write_other by distinct_names; reflexivity
      | cbn [files]; rewrite !FsFacts.present_write_other by distinct_names; reflexivity ].
  cbn [fst snd trace files Splitter.prev_end Splitter.split_count Splitter.start_cursor].
  rewrite Hd. split; [reflexivity|]. split.
  - cbn [app]. eq_times.
  - change (map fst) with Fs.listdir.
    assert (Hjpg : forall k, Splitter.split_name k "jpg" <> Splitter.split_name k fmt).
    { intros k. apply SplitterFacts.split_name_ext. congruence. }
    rewrite !FsFacts.listdir_write_new;
      rewrite ?FsFacts.present_write_other by (distinct_names || apply Hjpg);
      reflexivity.
Qed.

(** The scenario with a Matroska source carrying an AAC track. *)
Lemma scenario_one_silence_two_splits_witness :
  fst (Splitter.split_original_by_silence Examples.quiet_engine 2700 (-40)
         (mkState Examples.scenario_dir []))
  = Ok tt.
Proof.
  refine (proj1 (scenario_one_silence_two_splits Examples.quiet_engine
                   Examples.source_5400 "aac" "matroska" _ _ _ _ _));
    try reflexivity.
  intros H. discriminate H.
Defined.

(** ** Sorting and loading the cache files *)

Module LoaderFacts.
Import Splitter.

(** A file whose second underscore-separated field is not an integer stops
    the loading, wherever it sits in the list. *)
Lemma load_all_stops d (fs : list string) (st : state) (f : string) :
  In f fs ->
  (exists e, chunk_idx f = Err e) ->
  exists e, fst (load_all d fs st) = Err e.
Proof.
  intros Hin [e0 Hbad]. induction fs as [|g fs IH]; [contradiction|].
  simpl. unfold bind.
  pose proof (SplitterRun.load_chunk_state d g st) as Hst.
  destruct (load_chunk d g st) as [[a|e] st1] eqn:Hg; simpl in Hst; subst st1.
  - destruct Hin as [->|Hin].
    + exfalso. revert Hg. unfold load_chunk, load_json. run_m.
      destruct (Fs.lookup f (files st)) as [[| l | | |]|]; simpl; try discriminate.
      rewrite Hbad. discriminate.
    + destruct (IH Hin) as [e He].
      destruct (load_all d fs st) as [[b|e'] st2]; simpl in *; [discriminate|].
      exists e'. reflexivity.
  - exists e. reflexivity.
Qed.

End LoaderFacts.

(** C9 -- The sort does put a name without a chunk number last, but the
    loading loop then fails on it: [int] rejects the field it takes for the
    chunk number, and the Splitter stops with [ValueError] after the probe,
    before any split is made. *)
Theorem stray_cache_name_stops_splitter :
  Sorter.sort_chunks (Splitter.select (-40) (Fs.listdir Examples.stray_dir))
  = ["chunk_1_silence_-40.json"; "notes_silence_-40.json"] /\
  Splitter.chunk_idx "notes_silence_-40.json" = Err ValueError /\
  Splitter.split_original_by_silence Examples.quiet_engine 2700 (-40)
    (mkState Examples.stray_dir [])
  = (Err ValueError, mkState Examples.stray_dir [Probe]).
Proof. repeat split. Qed.

(** ** Chunker *)

Module ChunkerFacts.
Import Chunker.


Lemma time_of_Z_lt (a b : Z) : (a < b)%Z -> (time_of_Z a < time_of_Z b)%Qc.
Proof.
  intros H. unfold Qclt, time_of_Z, Q2Qc. cbn [this]. rewrite !Qred_correct.
  rewrite <- Zlt_Qlt. exact H.
Qed.

Lemma time_of_Z_le (a b : Z) : (a <= b)%Z -> (time_of_Z a <= time_of_Z b)%Qc.
Proof.
  intros H. unfold Qcle, time_of_Z, Q2Qc. cbn [this]. rewrite !Qred_correct.
  rewrite <- Zle_Qle. exact H.
Qed.




Section Quotient.

Variables (T : time) (d : Z).
Hypothesis T_pos : (time_of_Z 0 < T)%Qc.
Hypothesis d_pos : (0 < d)%Z.




End Quotient.

Lemma for_each_cons {A B} (f : A -> M B) (a : A) (r : list A) (st : state) :
  for_each f (a :: r) st =
  match f a st with
  | (Ok b, st1) =>
      match for_each f r st1 with
      | (Ok bs, st2) => (Ok (b :: bs), st2)
      | (Err e, st2) => (Err e, st2)
      end
  | (Err e, st1) => (Err e, st1)
  end.
Proof. reflexivity. Qed.

Lemma extract_chunk_cached E d (i : nat) (st : state) :
  Fs.present (chunk_name i) (files st) = true ->
  extract_chunk E d i st = (Ok (chunk_name i), st).
Proof.
  intros H. unfold extract_chunk. run_m. rewrite H. reflexivity.
Qed.

Lemma chunks_cached E d (ixs : list nat) (st : state) :
  (forall i, In i ixs -> Fs.present (chunk_name i) (files st) = true) ->
  for_each (extract_chunk E d) ixs st = (Ok (map chunk_name ixs), st).
Proof.
  induction ixs as [|i ixs IH]; intros H; [reflexivity|].
  rewrite for_each_cons, extract_chunk_cached by (apply H; simpl; auto).
  rewrite IH by (intros j Hj; apply H; simpl; auto).
  reflexivity.
Qed.

Section Loop.

Variable E : engine.
Variable d : Z.
Hypothesis works : forall x, succeeds E x = true.




End Loop.

End ChunkerFacts.




(** ** The whole run *)

Module PipelineFacts.

Lemma load_all_on_files d (fs : list string) (st st' : state) :
  files st = files st' ->
  Splitter.load_all d fs st' = (fst (Splitter.load_all d fs st), st').
Proof.
  intros Hf. revert st st' Hf. induction fs as [|f fs IH]; intros st st' Hf.
  - reflexivity.
  - simpl. unfold bind.
    assert (Hc : Splitter.load_chunk d f st' = (fst (Splitter.load_chunk d f st), st')).
    { unfold Splitter.load_chunk, load_json. run_m. rewrite Hf.
      destruct (Fs.lookup f (files st')) as [[| l | | |]|]; simpl; try reflexivity.
      destruct (Splitter.chunk_idx f); reflexivity. }
    rewrite Hc.
    pose proof (SplitterRun.load_chunk_state d f st) as Hs.
    destruct (Splitter.load_chunk d f st) as [[a|e] st1]; simpl in *; subst st1;
      [|reflexivity].
    rewrite (IH st st' Hf).
    pose proof (SplitterRun.load_all_state d fs st) as Hs.
    destruct (Splitter.load_all d fs st) as [[b|e] st2]; simpl in *; subst st2;
      reflexivity.
Qed.

Lemma detect_chunk_cached E thr sd (f : string) (st : state) :
  Fs.present (Pipeline.silence_cache_file thr f) (files st) = true ->
  Pipeline.detect_chunk E thr sd f st = (Ok tt, st).
Proof.
  intros H. unfold Pipeline.detect_chunk. run_m. rewrite H. reflexivity.
Qed.

Lemma detect_cached E thr sd (fs : list string) (st : state) :
  (forall f, In f fs -> Fs.present (Pipeline.silence_cache_file thr f) (files st) = true) ->
  exists done, for_each (Pipeline.detect_chunk E thr sd) fs st = (Ok done, st).
Proof.
  induction fs as [|f fs IH]; intros H.
  - exists []. reflexivity.
  - destruct IH as [done Hd]; [intros g Hg; apply H; simpl; auto|].
    exists (tt :: done).
    rewrite ChunkerFacts.for_each_cons, detect_chunk_cached by (apply H; simpl; auto).
    rewrite Hd. reflexivity.
Qed.

Lemma process_mkv_file_stages E d thr sd (st : state) :
  Pipeline.process_mkv_file E d thr sd st =
  match Chunker.extract_audio_chunks E d st with
  | (Ok chunk_files, st1) =>
      match for_each (Pipeline.detect_chunk E thr sd) chunk_files st1 with
      | (Ok _, st2) => Splitter.split_original_by_silence E d thr st2
      | (Err e, st2) => (Err e, st2)
      end
  | (Err e, st1) => (Err e, st1)
  end.
Proof. reflexivity. Qed.

End PipelineFacts.




(** ** Nothing is lost: files and calls only accumulate *)

Module RunFacts.
Import Run.

Lemma keeps_refl fs : keeps fs fs.
Proof. intros name c H. exact H. Qed.

Lemma keeps_trans fs1 fs2 fs3 : keeps fs1 fs2 -> keeps fs2 fs3 -> keeps fs1 fs3.
Proof. intros H1 H2 name c H. apply H2, H1, H. Qed.

Lemma keeps_write name c fs : Fs.present name fs = false -> keeps fs (Fs.write name c fs).
Proof.
  intros Hab n c' Hn. rewrite FsFacts.lookup_write_other; [exact Hn|].
  intros ->. unfold Fs.present in Hab. rewrite Hn in Hab. discriminate.
Qed.

Lemma keeps_present fs fs' name :
  keeps fs fs' -> Fs.present name fs = true -> Fs.present name fs' = true.
Proof.
  unfold Fs.present. intros Hk H.
  destruct (Fs.lookup name fs) as [c|] eqn:Hl; [|discriminate].
  rewrite (Hk _ _ Hl). reflexivity.
Qed.

Lemma grows_refl st : grows st st.
Proof. split; [apply keeps_refl|]. exists []. rewrite app_nil_r. reflexivity. Qed.

Lemma grows_trans st1 st2 st3 : grows st1 st2 -> grows st2 st3 -> grows st1 st3.
Proof.
  intros [K1 [n1 T1]] [K2 [n2 T2]]. split; [eapply keeps_trans; eauto|].
  exists (n1 ++ n2). rewrite T2, T1, app_assoc. reflexivity.
Qed.

Lemma grows_call st c : grows st (mkState (files st) (trace st ++ [c])).
Proof. split; [apply keeps_refl|]. exists [c]. reflexivity. Qed.

Lemma monotone_ret {A} (a : A) : monotone (ret a).
Proof. intros st. apply grows_refl. Qed.

Lemma monotone_lift {A} (r : result A) : monotone (lift r).
Proof. intros st. apply grows_refl. Qed.

Lemma monotone_raise {A} (e : error) : monotone (@raise A e).
Proof. intros st. apply grows_refl. Qed.

Lemma monotone_exists name : monotone (exists_ name).
Proof. intros st. apply grows_refl. Qed.

Lemma monotone_listdir : monotone listdir.
Proof. intros st. apply grows_refl. Qed.

Lemma monotone_load_json name : monotone (load_json name).
Proof.
  intros st. unfold load_json.
  destruct (Fs.lookup name (files st)) as [[| l | | |]|]; apply grows_refl.
Qed.

Lemma monotone_probe E : monotone (probe E).
Proof. intros st. apply grows_call. Qed.

Lemma monotone_run E c : monotone (run E c).
Proof. intros st. unfold run. destruct (succeeds E c); apply grows_call. Qed.

Lemma monotone_bind {A B} (m : M A) (k : A -> M B) :
  monotone m -> (forall a, monotone (k a)) -> monotone (bind m k).
Proof.
  intros Hm Hk st. unfold bind. pose proof (Hm st) as H1.
  destruct (m st) as [[a|e] st1]; simpl in *; [|exact H1].
  eapply grows_trans; [exact H1|apply Hk].
Qed.

Lemma monotone_for_each {A B} (f : A -> M B) (l : list A) :
  (forall a, monotone (f a)) -> monotone (for_each f l).
Proof.
  intros Hf. induction l as [|a l IH]; simpl; [apply monotone_ret|].
  apply monotone_bind; [apply Hf|]. intros b.
  apply monotone_bind; [exact IH|]. intros bs. apply monotone_ret.
Qed.

(** An output is produced only when it is not there yet. *)
Lemma monotone_guarded {B} E (c : call) (out : string) (kind : content) (k : unit -> M B) :
  (forall u, monotone (k u)) ->
  monotone (bind (exists_ out)
                 (fun there => bind (if there then ret tt else run_to E c out kind) k)).
Proof.
  intros Hk st. unfold bind at 1, exists_. simpl.
  destruct (Fs.present out (files st)) eqn:Hp.
  - apply (monotone_bind (ret tt) k); [apply monotone_ret|exact Hk].
  - unfold bind at 1, run_to, bind at 1, run, write_file. simpl.
    destruct (succeeds E c); simpl; [|apply grows_call].
    eapply grows_trans; [|apply Hk].
    split; simpl; [apply keeps_write; exact Hp|]. exists [c]. reflexivity.
Qed.

Lemma monotone_extract_chunk E d i : monotone (Chunker.extract_chunk E d i).
Proof.
  unfold Chunker.extract_chunk. apply monotone_guarded. intros u. apply monotone_ret.
Qed.

Lemma monotone_extract_audio_chunks E d : monotone (Chunker.extract_audio_chunks E d).
Proof.
  unfold Chunker.extract_audio_chunks.
  apply monotone_bind; [apply monotone_probe|]. intros info.
  apply monotone_bind; [apply monotone_lift|]. intros n.
  apply monotone_for_each. apply monotone_extract_chunk.
Qed.

Lemma monotone_detect_chunk E thr sd f : monotone (Pipeline.detect_chunk E thr sd f).
Proof.
  intros st. unfold Pipeline.detect_chunk, bind at 1, exists_. simpl.
  destruct (Fs.present (Pipeline.silence_cache_file thr f) (files st)) eqn:Hp;
    [apply grows_refl|].
  unfold Pipeline.detect_silence, bind, run, lift, write_file. simpl.
  destruct (succeeds E _); simpl; [|apply grows_call].
  destruct (Detector.parse _); simpl; [|apply grows_call].
  split; simpl; [apply keeps_write; exact Hp|]. eexists. reflexivity.
Qed.

Lemma monotone_load_chunk d f : monotone (Splitter.load_chunk d f).
Proof.
  unfold Splitter.load_chunk.
  apply monotone_bind; [apply monotone_load_json|]. intros l.
  apply monotone_bind; [apply monotone_lift|]. intros idx. apply monotone_ret.
Qed.

Lemma monotone_load_all d fs : monotone (Splitter.load_all d fs).
Proof.
  induction fs as [|f fs IH]; simpl; [apply monotone_ret|].
  apply monotone_bind; [apply monotone_load_chunk|]. intros a.
  apply monotone_bind; [exact IH|]. intros b. apply monotone_ret.
Qed.

Lemma monotone_get_audio_codec E : monotone (Splitter.get_audio_codec E).
Proof.
  unfold Splitter.get_audio_codec.
  apply monotone_bind; [apply monotone_probe|]. intros info. apply monotone_lift.
Qed.

Lemma monotone_visit E codec fmt c silence : monotone (Splitter.visit E codec fmt c silence).
Proof.
  destruct silence as [s e]. unfold Splitter.visit.
  destruct (ltb _ _); [apply monotone_ret|].
  apply monotone_guarded. intros u.
  unfold Splitter.extract_middle_frame.
  apply monotone_guarded. intros u'. apply monotone_ret.
Qed.

Lemma monotone_walk E codec fmt all : forall c, monotone (Splitter.walk E codec fmt c all).
Proof.
  induction all as [|silence all IH]; intros c; simpl; [apply monotone_ret|].
  apply monotone_bind; [apply monotone_visit|]. exact IH.
Qed.

Lemma monotone_finish E codec fmt c : monotone (Splitter.finish E codec fmt c).
Proof.
  unfold Splitter.finish. apply monotone_guarded. intros u st.
  unfold bind at 1, exists_. simpl.
  destruct (Fs.present (Splitter.split_name (Splitter.split_count c) "jpg") (files st))
    eqn:Hp; [apply grows_refl|].
  unfold bind, probe, Splitter.extract_middle_frame, run_to, bind, run, write_file.
  simpl. destruct (probe_answer E) as [info|]; simpl; [|apply grows_call].
  destruct (succeeds E _); simpl.
  - split; simpl; [apply keeps_write; exact Hp|]. eexists. rewrite <- app_assoc.
    reflexivity.
  - split; simpl; [apply keeps_refl|]. eexists. rewrite <- app_assoc. reflexivity.
Qed.

Lemma monotone_split_original_by_silence E d thr :
  monotone (Splitter.split_original_by_silence E d thr).
Proof.
  unfold Splitter.split_original_by_silence.
  apply monotone_bind; [apply monotone_listdir|]. intros names.
  apply monotone_bind; [apply monotone_get_audio_codec|]. intros codec.
  apply monotone_bind; [apply monotone_load_all|]. intros all.
  apply monotone_bind; [apply monotone_walk|]. intros c. apply monotone_finish.
Qed.

Lemma monotone_process_mkv_file E d thr sd :
  monotone (Pipeline.process_mkv_file E d thr sd).
Proof.
  unfold Pipeline.process_mkv_file.
  apply monotone_bind; [apply monotone_extract_audio_chunks|]. intros chunk_files.
  apply monotone_bind; [apply monotone_for_each; apply monotone_detect_chunk|].
  intros done. apply monotone_split_original_by_silence.
Qed.

End RunFacts.

(** Whatever happens during a run, success or failure, every file that was in
    the output directory before it is still there afterwards with the same
    content, and the engine calls already made stay the first ones: each
    output is written only after a test that it does not exist. *)
Theorem run_never_overwrites (E : engine) (d thr : Z) (sd : time) (st : state) :
  (forall name c,
      Fs.lookup name (files st) = Some c ->
      Fs.lookup name (files (snd (Pipeline.process_mkv_file E d thr sd st))) = Some c) /\
  exists new,
    trace (snd (Pipeline.process_mkv_file E d thr sd st)) = trace st ++ new.
Proof.
  assert (H : Run.monotone (Pipeline.process_mkv_file E d thr sd)).
  { unfold Pipeline.process_mkv_file.
    apply RunFacts.monotone_bind; [apply RunFacts.monotone_extract_audio_chunks|].
    intros chunk_files.
    apply RunFacts.monotone_bind;
      [apply RunFacts.monotone_for_each; apply RunFacts.monotone_detect_chunk|].
    intros done. apply RunFacts.monotone_split_original_by_silence. }
  destruct (H st) as [Hk Ht]. split; [exact Hk|exact Ht].
Qed.

(** ** A second run after a successful one *)

Module RerunFacts.
Import Run.

Lemma appends_refl P st : appends P st st.
Proof. exists []. rewrite app_nil_r. auto. Qed.

Lemma appends_trans P st1 st2 st3 :
  appends P st1 st2 -> appends P st2 st3 -> appends P st1 st3.
Proof.
  intros (x1 & H1 & F1) (x2 & H2 & F2). exists (x1 ++ x2).
  rewrite H2, H1, app_assoc. split; [reflexivity|]. apply Forall_app. auto.
Qed.

Lemma appends_trace P st tr : appends P st (mkState (files st) tr).
Proof. exists []. simpl. rewrite app_nil_r. auto. Qed.

Lemma appends_write (P : string -> Prop) st name c tr :
  P name -> appends P st (mkState (Fs.write name c (files st)) tr).
Proof.
  intros HP. simpl. destruct (Fs.present name (files st)) eqn:Hp.
  - exists []. simpl. rewrite FsFacts.listdir_write_old by exact Hp.
    rewrite app_nil_r. auto.
  - exists [name]. simpl. rewrite FsFacts.listdir_write_new by exact Hp. auto.
Qed.

Lemma appends_weaken (P Q : string -> Prop) st st' :
  (forall n, P n -> Q n) -> appends P st st' -> appends Q st st'.
Proof.
  intros HPQ (x & H & F). exists x. split; [exact H|].
  eapply Forall_impl; [|exact F]. exact HPQ.
Qed.

(** A guarded output that succeeds leaves its file on disk before what
    follows it runs. *)
Lemma guarded_then {B} E (c : call) (out : string) (kind : content)
      (k : unit -> M B) (st st' : state) (b : B) :
  bind (exists_ out)
       (fun there => bind (if there then ret tt else run_to E c out kind) k) st
  = (Ok b, st') ->
  exists sta,
    Fs.present out (files sta) = true /\
    appends (eq out) st sta /\
    grows st sta /\
    k tt sta = (Ok b, st').
Proof.
  unfold bind at 1, exists_. simpl.
  destruct (Fs.present out (files st)) eqn:Hp.
  - unfold bind, ret. simpl. intros H. exists st.
    split; [exact Hp|]. split; [apply appends_refl|].
    split; [apply RunFacts.grows_refl|exact H].
  - unfold bind at 1, run_to, bind at 1, run, write_file. simpl.
    destruct (succeeds E c); simpl; [|discriminate].
    intros H. exists (mkState (Fs.write out kind (files st)) (trace st ++ [c])).
    split; [apply FsFacts.present_write_same|].
    split; [apply appends_write; reflexivity|].
    split; [|exact H].
    split; simpl; [apply RunFacts.keeps_write; exact Hp|]. exists [c]. reflexivity.
Qed.

Section Splitting.

Variable E : engine.
Variables codec fmt : string.

Lemma visit_done c (s e : time) st c1 st1 :
  Splitter.visit E codec fmt c (s, e) st = (Ok c1, st1) ->
  c1 = Splitter.mkCursor e (Splitter.split_count c + 1) /\
  appends (split_output fmt) st st1 /\
  (ltb (s - Splitter.prev_end c)%Qc ten = false ->
   Fs.present (Splitter.split_name (Splitter.split_count c) fmt) (files st1) = true /\
   Fs.present (Splitter.split_name (Splitter.split_count c) "jpg") (files st1) = true).
Proof.
  unfold Splitter.visit. destruct (ltb (s - Splitter.prev_end c)%Qc ten).
  - intros H. injection H as <- <-. split; [reflexivity|].
    split; [apply appends_refl|discriminate].
  - intros H. apply guarded_then in H as (sta & Hpa & Haa & Hga & H).
    unfold Splitter.extract_middle_frame in H.
    apply guarded_then in H as (stb & Hpi & Hai & Hgi & H).
    unfold ret in H. injection H as <- <-. split; [reflexivity|]. split.
    + apply appends_trans with sta.
      * eapply appends_weaken; [|exact Haa]. intros n <-.
        exists (Splitter.split_count c). left. reflexivity.
      * eapply appends_weaken; [|exact Hai]. intros n <-.
        exists (Splitter.split_count c). right. reflexivity.
    + intros _. split; [|exact Hpi].
      exact (RunFacts.keeps_present _ _ _ (proj1 Hgi) Hpa).
Qed.

(** A walk that succeeded succeeds again, with the same cursor and without
    touching anything, on any directory that holds what it left. *)
Lemma walk_again all : forall c st c' st',
  Splitter.walk E codec fmt c all st = (Ok c', st') ->
  appends (split_output fmt) st st' /\
  forall st2, keeps (files st') (files st2) ->
              Splitter.walk E codec fmt c all st2 = (Ok c', st2).
Proof.
  induction all as [|[s e] all IH]; intros c st c' st' H.
  - simpl in H. unfold ret in H. injection H as <- <-.
    split; [apply appends_refl|]. intros st2 _. reflexivity.
  - rewrite SplitterFacts.walk_cons in H.
    destruct (Splitter.visit E codec fmt c (s, e) st) as [[c1|e1] st1] eqn:Hv;
      [|discriminate].
    destruct (visit_done _ _ _ _ _ _ Hv) as (-> & Hap & Hpres).
    destruct (IH _ _ _ _ H) as [Hap' Hagain].
    split; [eapply appends_trans; eauto|].
    intros st2 Hk. rewrite SplitterFacts.walk_cons.
    assert (Hv2 : Splitter.visit E codec fmt c (s, e) st2
                  = (Ok (Splitter.mkCursor e (Splitter.split_count c + 1)), st2)).
    { destruct (ltb (s - Splitter.prev_end c)%Qc ten) eqn:Hl.
      - unfold Splitter.visit. rewrite Hl. reflexivity.
      - destruct (Hpres eq_refl) as [Ha Hi].
        pose proof (RunFacts.monotone_walk E codec fmt all
                      (Splitter.mkCursor e (Splitter.split_count c + 1)) st1) as Hm.
        rewrite H in Hm. simpl in Hm. destruct Hm as [Hk1 _].
        apply SplitterFacts.visit_cached;
          eapply RunFacts.keeps_present; try exact Hk;
          eapply RunFacts.keeps_present; try exact Hk1; assumption. }
    rewrite Hv2. apply Hagain. exact Hk.
Qed.

Lemma finish_done c st st' :
  Splitter.finish E codec fmt c st = (Ok tt, st') ->
  appends (split_output fmt) st st' /\
  Fs.present (Splitter.split_name (Splitter.split_count c) fmt) (files st') = true /\
  Fs.present (Splitter.split_name (Splitter.split_count c) "jpg") (files st') = true.
Proof.
  unfold Splitter.finish. intros H.
  apply guarded_then in H as (sta & Hpa & Haa & Hga & H).
  set (image := Splitter.split_name (Splitter.split_count c) "jpg") in *.
  assert (Hi : Fs.present image (files st') = true /\ appends (eq image) sta st' /\
               grows sta st').
  { revert H. unfold bind at 1, exists_. simpl.
    destruct (Fs.present image (files sta)) eqn:Hp.
    - unfold ret. intros H. injection H as <-.
      split; [exact Hp|]. split; [apply appends_refl|apply RunFacts.grows_refl].
    - unfold bind, probe, Splitter.extract_middle_frame, run_to, bind, run, write_file.
      simpl. destruct (probe_answer E) as [info|]; simpl; [|discriminate].
      destruct (succeeds E _); simpl; [|discriminate].
      intros H. injection H as <-. simpl.
      split; [apply FsFacts.present_write_same|].
      split; [apply appends_write; reflexivity|].
      split; simpl; [apply RunFacts.keeps_write; exact Hp|].
      eexists. rewrite <- app_assoc. reflexivity. }
  destruct Hi as (Hpi & Hai & Hgi). split; [|split].
  - apply appends_trans with sta.
    + eapply appends_weaken; [|exact Haa]. intros n <-.
      exists (Splitter.split_count c). left. reflexivity.
    + eapply appends_weaken; [|exact Hai]. intros n <-.
      exists (Splitter.split_count c). right. reflexivity.
  - exact (RunFacts.keeps_present _ _ _ (proj1 Hgi) Hpa).
  - exact Hpi.
Qed.

End Splitting.

Lemma extract_chunk_done E d i st name st1 :
  Chunker.extract_chunk E d i st = (Ok name, st1) ->
  name = Chunker.chunk_name i /\ Fs.present (Chunker.chunk_name i) (files st1) = true.
Proof.
  unfold Chunker.extract_chunk. intros H.
  apply guarded_then in H as (sta & Hp & _ & _ & H).
  unfold ret in H. injection H as <- <-. auto.
Qed.

Lemma chunks_done E d (ixs : list nat) : forall st names st',
  for_each (Chunker.extract_chunk E d) ixs st = (Ok names, st') ->
  names = map Chunker.chunk_name ixs /\
  forall i, In i ixs -> Fs.present (Chunker.chunk_name i) (files st') = true.
Proof.
  induction ixs as [|i ixs IH]; intros st names st' H.
  - simpl in H. unfold ret in H. injection H as <- <-. split; [reflexivity|].
    intros i [].
  - rewrite ChunkerFacts.for_each_cons in H.
    destruct (Chunker.extract_chunk E d i st) as [[name|e] st1] eqn:H1; [|discriminate].
    destruct (for_each (Chunker.extract_chunk E d) ixs st1) as [[ns|e] st2] eqn:H2;
      [|discriminate].
    injection H as <- <-.
    apply extract_chunk_done in H1 as [-> Hp].
    pose proof (RunFacts.monotone_for_each (Chunker.extract_chunk E d) ixs
                  (RunFacts.monotone_extract_chunk E d) st1) as Hm.
    rewrite H2 in Hm. simpl in Hm.
    destruct (IH _ _ _ H2) as [-> Hrest]. split; [reflexivity|].
    intros j [<-|Hj]; [|apply Hrest; exact Hj].
    exact (RunFacts.keeps_present _ _ _ (proj1 Hm) Hp).
Qed.

Lemma detect_chunk_done E thr sd f st u st1 :
  Pipeline.detect_chunk E thr sd f st = (Ok u, st1) ->
  Fs.present (Pipeline.silence_cache_file thr f) (files st1) = true.
Proof.
  unfold Pipeline.detect_chunk, bind at 1, exists_. simpl.
  destruct (Fs.present (Pipeline.silence_cache_file thr f) (files st)) eqn:Hp.
  - unfold ret. intros H. injection H as _ <-. exact Hp.
  - unfold Pipeline.detect_silence, bind, run, lift, write_file. simpl.
    destruct (succeeds E _); simpl; [|discriminate].
    destruct (Detector.parse _); simpl; [|discriminate].
    intros H. injection H as _ <-. simpl. apply FsFacts.present_write_same.
Qed.

Lemma detect_done E thr sd (fs : list string) : forall st done st',
  for_each (Pipeline.detect_chunk E thr sd) fs st = (Ok done, st') ->
  forall f, In f fs -> Fs.present (Pipeline.silence_cache_file thr f) (files st') = true.
Proof.
  induction fs as [|g fs IH]; intros st done st' H f Hf; [destruct Hf|].
  rewrite ChunkerFacts.for_each_cons in H.
  destruct (Pipeline.detect_chunk E thr sd g st) as [[u|e] st1] eqn:H1; [|discriminate].
  destruct (for_each (Pipeline.detect_chunk E thr sd) fs st1) as [[ds|e] st2] eqn:H2;
    [|discriminate].
  injection H as _ <-.
  destruct Hf as [<-|Hf]; [|exact (IH _ _ _ H2 f Hf)].
  apply detect_chunk_done in H1.
  pose proof (RunFacts.monotone_for_each (Pipeline.detect_chunk E thr sd) fs
                (RunFacts.monotone_detect_chunk E thr sd) st1) as Hm.
  rewrite H2 in Hm. simpl in Hm.
  exact (RunFacts.keeps_present _ _ _ (proj1 Hm) H1).
Qed.

(** Caches that loaded once load alike from any directory that kept them. *)
Lemma load_all_again d (fs : list string) : forall st all st1 st',
  Splitter.load_all d fs st = (Ok all, st1) ->
  keeps (files st) (files st') ->
  Splitter.load_all d fs st' = (Ok all, st').
Proof.
  induction fs as [|f fs IH]; intros st all st1 st' H Hk.
  - simpl in H. unfold ret in H. injection H as <- _. reflexivity.
  - simpl in H. simpl. unfold bind in *.
    pose proof (SplitterRun.load_chunk_state d f st) as Hs.
    destruct (Splitter.load_chunk d f st) as [[a|e] sta] eqn:Hc; [|discriminate].
    simpl in Hs. subst sta.
    assert (Hc' : Splitter.load_chunk d f st' = (Ok a, st')).
    { revert Hc. unfold Splitter.load_chunk, load_json, bind, lift, ret.
      destruct (Fs.lookup f (files st)) as [[| l | | |]|] eqn:Hl; try discriminate.
      rewrite (Hk _ _ Hl).
      destruct (Splitter.chunk_idx f); [|discriminate].
      intros H'. injection H' as <-. reflexivity. }
    rewrite Hc'.
    destruct (Splitter.load_all d fs st) as [[b|e] stb] eqn:Hr; [|discriminate].
    injection H as <- _. rewrite (IH _ _ _ _ Hr Hk). reflexivity.
Qed.

(** A thumbnail name never carries the cache suffix. *)
Lemma jpg_not_cache k thr :
  PyStr.endswith (Splitter.split_name k "jpg") (Splitter.cache_suffix thr) = false.
Proof.
  unfold PyStr.endswith, Splitter.split_name, Splitter.cache_suffix.
  rewrite <- !NameFacts.append_assoc, !NameFacts.rev_append. simpl.
  reflexivity.
Qed.

Lemma select_appended thr fmt (names extra : list string) :
  (forall k, PyStr.endswith (Splitter.split_name k fmt) (Splitter.cache_suffix thr) = false) ->
  Forall (split_output fmt) extra ->
  Splitter.select thr (names ++ extra) = Splitter.select thr names.
Proof.
  intros Hfmt Hex. unfold Splitter.select. rewrite filter_app.
  assert (Hnil : filter (fun f => PyStr.endswith f (Splitter.cache_suffix thr)
                                  && negb (PyStr.startswith f ".")) extra = []).
  { induction Hex as [|n extra [k [-> | ->]] _ IH]; simpl.
    - reflexivity.
    - rewrite Hfmt. exact IH.
    - rewrite jpg_not_cache. exact IH. }
  rewrite Hnil. apply app_nil_r.
Qed.

End RerunFacts.
(** The run is idempotent: once a run has succeeded, running again on the
    directory it left succeeds, leaves every file as it is and calls the
    engine only to probe the source, twice.  The minimum silence duration is
    not part of any file name: the second run may ask for another one and
    still reuses the caches without detecting anything.  (The container name
    must not make a split file look like a sidecar cache.) *)
Theorem second_run_after_success (E : engine) (d thr : Z) (sd sd' : time)
        (st st' : state) (info : probe_info) (codec : string * string) :
  Pipeline.process_mkv_file E d thr sd st = (Ok tt, st') ->
  probe_answer E = Some info ->
  Splitter.codec_and_container info = Ok codec ->
  (forall k, PyStr.endswith (Splitter.split_name k (snd codec))
                            (Splitter.cache_suffix thr) = false) ->
  Pipeline.process_mkv_file E d thr sd' st'
  = (Ok tt, mkState (files st') (trace st' ++ [Probe; Probe])).
Proof.
  intros Hrun Hp Hcodec Hfmt.
  (* the first run, stage by stage *)
  rewrite PipelineFacts.process_mkv_file_stages in Hrun.
  destruct (Chunker.extract_audio_chunks E d st) as [[chunk_files|e] st1] eqn:Hch;
    [|discriminate].
  destruct (for_each (Pipeline.detect_chunk E thr sd) chunk_files st1)
    as [[done|e] st2] eqn:Hdet; [|discriminate].
  rewrite SplitterRun.split_original_by_silence_stages in Hrun.
  rewrite (SplitterRun.get_audio_codec_ok E st2 info codec Hp Hcodec) in Hrun.
  set (st3 := mkState (files st2) (trace st2 ++ [Probe])) in Hrun.
  set (listed := Sorter.sort_chunks (Splitter.select thr (Fs.listdir (files st2)))) in Hrun.
  pose proof (SplitterRun.load_all_state d listed st3) as Hls.
  destruct (Splitter.load_all d listed st3) as [[all|e] st3'] eqn:Hload; [|discriminate].
  simpl in Hls. subst st3'.
  destruct (Splitter.walk E (fst codec) (snd codec) Splitter.start_cursor all st3)
    as [[c|e] st4] eqn:Hwalk; [|discriminate].
  (* what the first run left behind *)
  revert Hch. unfold Chunker.extract_audio_chunks, bind at 1, probe. rewrite Hp. simpl.
  unfold bind at 1, lift.
  destruct (Chunker.num_chunks (duration info) d) as [nz|e] eqn:Hn; [|discriminate].
  intros Hch. apply RerunFacts.chunks_done in Hch as [-> Hchunks].
  pose proof (RerunFacts.detect_done _ _ _ _ _ _ _ Hdet) as Hcaches.
  destruct (RerunFacts.walk_again E (fst codec) (snd codec) all _ _ _ _ Hwalk)
    as [Hap4 Hagain].
  destruct (RerunFacts.finish_done E (fst codec) (snd codec) _ _ _ Hrun)
    as (Hap' & Hfa & Hfi).
  assert (K12 : Run.keeps (files st1) (files st2)).
  { pose proof (RunFacts.monotone_for_each (Pipeline.detect_chunk E thr sd)
                  (map Chunker.chunk_name (seq 0 (Z.to_nat nz)))
                  (RunFacts.monotone_detect_chunk E thr sd) st1) as Hm.
    rewrite Hdet in Hm. exact (proj1 Hm). }
  assert (K34 : Run.keeps (files st3) (files st4)).
  { pose proof (RunFacts.monotone_walk E (fst codec) (snd codec) all
                  Splitter.start_cursor st3) as Hm.
    rewrite Hwalk in Hm. exact (proj1 Hm). }
  assert (K4' : Run.keeps (files st4) (files st')).
  { pose proof (RunFacts.monotone_finish E (fst codec) (snd codec) c st4) as Hm.
    rewrite Hrun in Hm. exact (proj1 Hm). }
  assert (K2' : Run.keeps (files st2) (files st')).
  { eapply RunFacts.keeps_trans; [exact K34|exact K4']. }
  (* the second run *)
  rewrite PipelineFacts.process_mkv_file_stages.
  set (s1 := mkState (files st') (trace st' ++ [Probe])).
  assert (Hch2 : Chunker.extract_audio_chunks E d st'
                 = (Ok (map Chunker.chunk_name (seq 0 (Z.to_nat nz))), s1)).
  { unfold Chunker.extract_audio_chunks, bind at 1, probe. rewrite Hp. simpl.
    unfold bind at 1, lift. rewrite Hn.
    apply ChunkerFacts.chunks_cached. intros i Hi. simpl.
    eapply RunFacts.keeps_present; [exact K2'|].
    eapply RunFacts.keeps_present; [exact K12|]. apply Hchunks. exact Hi. }
  rewrite Hch2.
  destruct (PipelineFacts.detect_cached E thr sd'
              (map Chunker.chunk_name (seq 0 (Z.to_nat nz))) s1) as [done2 Hdet2].
  { intros f Hf. simpl. eapply RunFacts.keeps_present; [exact K2'|].
    apply Hcaches. exact Hf. }
  rewrite Hdet2, SplitterRun.split_original_by_silence_stages.
  rewrite (SplitterRun.get_audio_codec_ok E s1 info codec Hp Hcodec).
  set (s2 := mkState (files s1) (trace s1 ++ [Probe])).
  assert (Hlist : Sorter.sort_chunks (Splitter.select thr (Fs.listdir (files s1))) = listed).
  { unfold listed. f_equal. simpl.
    destruct (RerunFacts.appends_trans _ _ _ _ Hap4 Hap') as (extra & Hx & Fx).
    rewrite Hx. simpl. apply (RerunFacts.select_appended thr (snd codec)); assumption. }
  rewrite Hlist.
  rewrite (RerunFacts.load_all_again d listed st3 all st3 s2 Hload)
    by (simpl; exact K2').
  rewrite (Hagain s2) by (simpl; exact K4').
  pose proof (SplitterFacts.walk_count _ _ _ _ _ _ _ _ Hwalk) as Hcount.
  rewrite SplitterRun.finish_cached by (simpl; assumption).
  unfold s2, s1. simpl. rewrite <- app_assoc. reflexivity.
Qed.

(** A first run from an empty directory with a minimum silence duration of
    two seconds, then a second one that asks for ten. *)
Lemma second_run_after_success_witness :
  Pipeline.process_mkv_file Examples.talk_engine 2700 (-40) ten
    (snd (Pipeline.process_mkv_file Examples.talk_engine 2700 (-40) two (mkState [] [])))
  = (Ok tt,
     mkState
       (files (snd (Pipeline.process_mkv_file Examples.talk_engine 2700 (-40) two
                      (mkState [] []))))
       (trace (snd (Pipeline.process_mkv_file Examples.talk_engine 2700 (-40) two
                      (mkState [] [])))
        ++ [Probe; Probe])).
Proof.
  apply (second_run_after_success Examples.talk_engine 2700 (-40) two ten (mkState [] [])
           _ Examples.source_5400 ("aac", "matroska")).
  - vm_compute. reflexivity.
  - reflexivity.
  - reflexivity.
  - intros k. unfold PyStr.endswith, Splitter.split_name, Splitter.cache_suffix.
    rewrite <- !NameFacts.append_assoc, !NameFacts.rev_append. reflexivity.
Defined.

(** ** The order in which the caches are loaded *)

Module OrderFacts.
Import Sorter.

Lemma span_digits_stop (d : string) (c : ascii) (r : string) :
  PyStr.all_digits d = true ->
  PyStr.is_digit c = false ->
  PyStr.span_digits (d ++ String c r) = (d, String c r).
Proof.
  intros Hd Hc. induction d as [|x d IH]; simpl.
  - rewrite Hc. reflexivity.
  - simpl in Hd. apply andb_true_iff in Hd as [Hx Hd].
    rewrite Hx, (IH Hd). reflexivity.
Qed.

Lemma str_N_nonempty (n : N) : String.length (PyStr.str_N n) <> 0%nat.
Proof.
  pose proof (NameFacts.num_of_digits_str_N n) as H.
  destruct (PyStr.str_N n); [discriminate|simpl; discriminate].
Qed.

(** The number the sort reads in a cache name is the segment number. *)
Lemma extract_chunk_number_cache_name (n : N) (thr : Z) :
  extract_chunk_number (cache_name n thr) = Some n.
Proof.
  unfold extract_chunk_number, cache_name, Splitter.cache_suffix.
  change ("chunk_" ++ PyStr.str_N n ++ "_silence_" ++ PyStr.str_Z thr ++ ".json")%string
    with (String "c" (String "h" (String "u" (String "n" (String "k" (String "_"
            (PyStr.str_N n ++ String "_" ("silence_" ++ PyStr.str_Z thr ++ ".json")))))))%string).
  cbn [search_chunk_digits PyStr.after_prefix]. simpl Ascii.eqb. cbn iota.
  rewrite (span_digits_stop _ "_" _ (NameFacts.str_N_digits n) eq_refl).
  destruct (String.length (PyStr.str_N n)) eqn:Hl;
    [exfalso; exact (str_N_nonempty n Hl)|].
  simpl Nat.eqb. cbn iota. apply NameFacts.num_of_digits_str_N.
Qed.

Lemma insert_by_map {A B} (k : B -> key) (f : A -> B) (x : A) (l : list A) :
  insert_by k (f x) (map f l) = map f (insert_by (fun a => k (f a)) x l).
Proof.
  induction l as [|y l IH]; simpl; [reflexivity|].
  destruct (key_lt (k (f y)) (k (f x))); simpl; [rewrite IH|]; reflexivity.
Qed.

Lemma sorted_by_map {A B} (k : B -> key) (f : A -> B) (l : list A) :
  sorted_by k (map f l) = map f (sorted_by (fun a => k (f a)) l).
Proof.
  induction l as [|x l IH]; simpl; [reflexivity|].
  fold (sorted_by k (map f l)). rewrite IH. apply insert_by_map.
Qed.

Lemma insert_by_ext {A} (k k' : A -> key) (x : A) (l : list A) :
  (forall a, k a = k' a) -> insert_by k x l = insert_by k' x l.
Proof.
  intros H. induction l as [|y l IH]; simpl; [reflexivity|].
  rewrite !H, IH. reflexivity.
Qed.

Lemma sorted_by_ext {A} (k k' : A -> key) (l : list A) :
  (forall a, k a = k' a) -> sorted_by k l = sorted_by k' l.
Proof.
  intros H. induction l as [|x l IH]; simpl; [reflexivity|].
  fold (sorted_by k l) (sorted_by k' l). rewrite IH. apply insert_by_ext. exact H.
Qed.

(** Cache names sort as their segment numbers do. *)
Lemma sort_cache_names (thr : Z) (ns : list N) :
  sort_chunks (map (fun n => cache_name n thr) ns)
  = map (fun n => cache_name n thr) (sorted_by Some ns).
Proof.
  unfold sort_chunks. rewrite sorted_by_map. f_equal.
  apply sorted_by_ext. intros n. apply extract_chunk_number_cache_name.
Qed.

Lemma sorted_numbers (ns : list N) : Sorted N.le (sorted_by Some ns).
Proof.
  pose proof (SorterFacts.sorted_by_sorted (@Some N) ns) as H.
  induction H as [|x l Hs IH Hhd]; constructor; [exact IH|].
  destruct Hhd as [|y l Hxy]; constructor.
  unfold in_order in Hxy. simpl in Hxy. apply N.ltb_ge in Hxy. exact Hxy.
Qed.

(** Loading the caches of the segments [order], in that order. *)
Lemma load_in_order (d thr : Z) (cached : N -> list interval) (st : state)
      (order : list N) :
  (forall n, In n order ->
             Fs.lookup (cache_name n thr) (files st) = Some (Cache (cached n))) ->
  Splitter.load_all d (map (fun n => cache_name n thr) order) st
  = (Ok (flat_map (fun n => Splitter.adjust ((Z.of_N n - 1) * d) (cached n)) order), st).
Proof.
  induction order as [|n order IH]; intros Hin; [reflexivity|].
  simpl. unfold bind at 1.
  assert (Hone : Splitter.load_chunk d (cache_name n thr) st
                 = (Ok (Splitter.adjust ((Z.of_N n - 1) * d) (cached n)), st)).
  { unfold Splitter.load_chunk, load_json. run_m.
    rewrite (Hin n) by (simpl; auto). simpl. rewrite chunk_idx_cache_name. reflexivity. }
  rewrite Hone. unfold bind at 1. rewrite IH by (intros m Hm; apply Hin; simpl; auto).
  reflexivity.
Qed.

End OrderFacts.

(** The sort key of the cache of segment n is n itself, and the keys are
    compared as numbers: the cache of segment 10 comes after that of segment
    2.  The chunk index used for the offset is that key less one. *)
Theorem cache_sort_key_is_segment_number (n m : N) (thr : Z) :
  Sorter.extract_chunk_number (cache_name n thr) = Some n /\
  Sorter.key_lt (Sorter.extract_chunk_number (cache_name n thr))
                (Sorter.extract_chunk_number (cache_name m thr)) = (n <? m)%N /\
  Splitter.chunk_idx (cache_name n thr) = Ok (Z.of_N n - 1)%Z.
Proof.
  rewrite !OrderFacts.extract_chunk_number_cache_name.
  split; [reflexivity|]. split; [reflexivity|]. apply chunk_idx_cache_name.
Qed.

(** Whatever the order in which the directory lists them, the caches of the
    segments [ns] are loaded in ascending segment order, and the global list
    is the concatenation, in that order, of each segment's intervals moved by
    (n - 1) chunk durations. *)
Theorem caches_load_in_segment_order (d thr : Z) (ns : list N) (st : state)
        (cached : N -> list interval) :
  (forall n, In n ns ->
             Fs.lookup (cache_name n thr) (files st) = Some (Cache (cached n))) ->
  Permutation ns (Sorter.sorted_by Some ns) /\
  Sorted N.le (Sorter.sorted_by Some ns) /\
  Splitter.load_all d (Sorter.sort_chunks (map (fun n => cache_name n thr) ns)) st
  = (Ok (flat_map (fun n => Splitter.adjust ((Z.of_N n - 1) * d) (cached n))
                  (Sorter.sorted_by Some ns)),
     st).
Proof.
  intros Hc.
  pose proof (SorterFacts.sorted_by_perm (@Some N) ns) as Hperm.
  split; [exact Hperm|]. split; [apply OrderFacts.sorted_numbers|].
  rewrite OrderFacts.sort_cache_names.
  apply OrderFacts.load_in_order.
  intros n Hn. apply Hc. eapply Permutation_in; [apply Permutation_sym; exact Hperm|].
  exact Hn.
Qed.

(** Listed in the order 10, 2, 1, the caches load in the order 1, 2, 10. *)
Lemma caches_load_in_segment_order_witness :
  Sorter.sorted_by Some [10%N; 2%N; 1%N] = [1%N; 2%N; 10%N] /\
  Splitter.load_all 2700
    (Sorter.sort_chunks (map (fun n => cache_name n (-40)) [10%N; 2%N; 1%N]))
    (mkState Examples.three_caches [])
  = (Ok (flat_map (fun n => Splitter.adjust ((Z.of_N n - 1) * 2700)
                              (Examples.three_cached n))
                  (Sorter.sorted_by Some [10%N; 2%N; 1%N])),
     mkState Examples.three_caches []).
Proof.
  split; [reflexivity|].
  apply (caches_load_in_segment_order 2700 (-40) [10%N; 2%N; 1%N]
           (mkState Examples.three_caches []) Examples.three_cached).
  intros n [<-|[<-|[<-|[]]]]; reflexivity.
Defined.

(** ** Splits follow one another *)

Module TimelineFacts.
Import Timeline.

Lemma ascending_weaken (calls : list call) : forall lo lo',
  (lo <= lo')%Qc -> ascending_ranges lo' calls -> ascending_ranges lo calls.
Proof.
  induction calls as [|c calls IH]; intros lo lo' Hle H; [exact I|].
  destruct c as [| | | ss [to|] out a f |]; simpl in *;
    try (eapply IH; eassumption).
  - destruct H as (H1 & H2 & H3). split; [eapply Qcle_trans; eassumption|]. auto.
  - destruct H as (H1 & H2). split; [eapply Qcle_trans; eassumption|]. auto.
Qed.

Lemma final_end_cons p (s e : time) l : final_end p ((s, e) :: l) = final_end e l.
Proof.
  unfold final_end. simpl. destruct (map snd l) eqn:Hm; [reflexivity|].
  clear Hm. revert t. induction l0 as [|x l0 IH]; intros t; [reflexivity|].
  simpl. destruct l0; [reflexivity|]. apply (IH x).
Qed.

Lemma final_end_above l : forall p, time_ordered p l -> (p <= final_end p l)%Qc.
Proof.
  induction l as [|[s e] l IH]; intros p H.
  - apply Qcle_refl.
  - destruct H as (H1 & H2 & H3). rewrite final_end_cons.
    eapply Qcle_trans; [exact H1|]. eapply Qcle_trans; [exact H2|]. apply IH. exact H3.
Qed.

Section Walk.

Variable E : engine.
Variables codec fmt : string.

(** The calls of one iteration fit between [prev_end] and the end of the
    interval. *)
Lemma visit_ascending c (s e : time) st :
  (Splitter.prev_end c <= s)%Qc -> (s <= e)%Qc ->
  exists new,
    trace (snd (Splitter.visit E codec fmt c (s, e) st)) = trace st ++ new /\
    forall rest, ascending_ranges e rest ->
                 ascending_ranges (Splitter.prev_end c) (new ++ rest).
Proof.
  intros Hps Hse.
  assert (Hpe : (Splitter.prev_end c <= e)%Qc) by (eapply Qcle_trans; eassumption).
  unfold Splitter.visit. destruct (ltb (s - Splitter.prev_end c)%Qc ten).
  - exists []. simpl. rewrite app_nil_r. split; [reflexivity|].
    intros rest H. eapply ascending_weaken; eassumption.
  - run_m.
    destruct (Fs.present (Splitter.split_name (Splitter.split_count c) fmt) (files st));
      simpl.
    + destruct (Fs.present _ _); simpl.
      * exists []. rewrite app_nil_r. split; [reflexivity|].
        intros rest H. eapply ascending_weaken; eassumption.
      * eexists [_]. destruct (succeeds E _); simpl; (split; [reflexivity|]);
          intros rest H; simpl; eapply ascending_weaken; eassumption.
    + destruct (succeeds E (ExtractAudio _ _ _ _ _)); simpl.
      * destruct (Fs.present _ _); simpl.
        -- eexists [_]. split; [reflexivity|]. intros rest H. simpl.
           split; [apply Qcle_refl|]. split; [exact Hps|].
           eapply ascending_weaken; eassumption.
        -- eexists [_; _]. rewrite <- app_assoc.
           destruct (succeeds E _); simpl; (split; [reflexivity|]);
             intros rest H; simpl; (split; [apply Qcle_refl|]);
             (split; [exact Hps|]); eapply ascending_weaken; eassumption.
      * eexists [_]. split; [reflexivity|]. intros rest H. simpl.
        split; [apply Qcle_refl|]. split; [exact Hps|].
        eapply ascending_weaken; eassumption.
Qed.

Lemma walk_ascending all : forall c st,
  time_ordered (Splitter.prev_end c) all ->
  exists new,
    trace (snd (Splitter.walk E codec fmt c all st)) = trace st ++ new /\
    forall rest, ascending_ranges (final_end (Splitter.prev_end c) all) rest ->
                 ascending_ranges (Splitter.prev_end c) (new ++ rest).
Proof.
  induction all as [|[s e] all IH]; intros c st H.
  - exists []. simpl. rewrite app_nil_r. split; [reflexivity|]. intros rest Hr. exact Hr.
  - destruct H as (H1 & H2 & H3). rewrite SplitterFacts.walk_cons, final_end_cons.
    destruct (visit_ascending c s e st H1 H2) as (n1 & T1 & A1).
    destruct (Splitter.visit E codec fmt c (s, e) st) as [[c1|e1] st1] eqn:Hv;
      simpl in T1.
    + apply SplitterFacts.visit_count in Hv as [_ Hp]. simpl in Hp.
      rewrite <- Hp in H3.
      destruct (IH c1 st1 H3) as (n2 & T2 & A2).
      exists (n1 ++ n2). rewrite T2, T1, app_assoc. split; [reflexivity|].
      intros rest Hr. rewrite <- app_assoc. apply A1. rewrite <- Hp.
      apply A2. rewrite Hp. exact Hr.
    + exists n1. simpl. split; [exact T1|]. intros rest Hr. apply A1.
      eapply ascending_weaken; [|exact Hr]. apply final_end_above. exact H3.
Qed.

Lemma walk_final all : forall c st c' st',
  Splitter.walk E codec fmt c all st = (Ok c', st') ->
  Splitter.prev_end c' = final_end (Splitter.prev_end c) all.
Proof.
  induction all as [|[s e] all IH]; intros c st c' st' H.
  - simpl in H. unfold ret in H. injection H as <- _. reflexivity.
  - rewrite SplitterFacts.walk_cons in H. rewrite final_end_cons.
    destruct (Splitter.visit E codec fmt c (s, e) st) as [[c1|e1] st1] eqn:Hv;
      [|discriminate].
    apply SplitterFacts.visit_count in Hv as [_ Hp]. simpl in Hp.
    rewrite (IH _ _ _ _ H), Hp. reflexivity.
Qed.

Lemma finish_ascending c st :
  exists new,
    trace (snd (Splitter.finish E codec fmt c st)) = trace st ++ new /\
    ascending_ranges (Splitter.prev_end c) new.
Proof.
  unfold Splitter.finish. run_m.
  destruct (Fs.present (Splitter.split_name (Splitter.split_count c) fmt) (files st)); simpl.
  - destruct (Fs.present _ _); simpl.
    + exists []. rewrite app_nil_r. split; [reflexivity|exact I].
    + destruct (probe_answer E); simpl.
      * eexists [_; _]. rewrite <- app_assoc.
        destruct (succeeds E _); simpl; (split; [reflexivity|exact I]).
      * eexists [_]. split; [reflexivity|exact I].
  - destruct (succeeds E _); simpl.
    + destruct (Fs.present _ _); simpl.
      * eexists [_]. split; [reflexivity|]. simpl. split; [apply Qcle_refl|exact I].
      * destruct (probe_answer E); simpl.
        -- eexists [_; _; _]. rewrite <- !app_assoc.
           destruct (succeeds E _); simpl; (split; [reflexivity|]);
             simpl; (split; [apply Qcle_refl|exact I]).
        -- eexists [_; _]. rewrite <- !app_assoc. split; [reflexivity|].
           simpl. split; [apply Qcle_refl|exact I].
    + eexists [_]. split; [reflexivity|]. simpl. split; [apply Qcle_refl|exact I].
Qed.

End Walk.

End TimelineFacts.

Module SegmentFacts.
Import Timeline.

Lemma time_of_Z_plus (a b : Z) : time_of_Z (a + b) = (time_of_Z a + time_of_Z b)%Qc.
Proof.
  unfold Qcplus, time_of_Z at 1. apply Q2Qc_eq_iff.
  unfold time_of_Z, Q2Qc. cbn [this].
  rewrite !Qred_correct, inject_Z_plus. reflexivity.
Qed.

Lemma time_ordered_weaken (l : list interval) (lo lo' : time) :
  (lo <= lo')%Qc -> time_ordered lo' l -> time_ordered lo l.
Proof.
  destruct l as [|[s e] l]; intros Hle H; [exact I|].
  destruct H as (H1 & H2 & H3). split; [eapply Qcle_trans; eassumption|]. auto.
Qed.

Lemma time_ordered_app (l1 l2 : list interval) : forall lo,
  time_ordered lo l1 -> time_ordered (final_end lo l1) l2 -> time_ordered lo (l1 ++ l2).
Proof.
  induction l1 as [|[s e] l1 IH]; intros lo H1 H2; [exact H2|].
  destruct H1 as (Ha & Hb & Hc). rewrite TimelineFacts.final_end_cons in H2.
  simpl. split; [exact Ha|]. split; [exact Hb|]. apply IH; assumption.
Qed.

Lemma adjust_ordered (off : Z) (l : list interval) : forall lo,
  time_ordered lo l ->
  time_ordered (lo + time_of_Z off)%Qc (Splitter.adjust off l).
Proof.
  induction l as [|[s e] l IH]; intros lo H; [exact I|].
  destruct H as (Ha & Hb & Hc). simpl.
  split; [apply Qcplus_le_compat; [exact Ha|apply Qcle_refl]|].
  split; [apply Qcplus_le_compat; [exact Hb|apply Qcle_refl]|].
  apply IH. exact Hc.
Qed.

Lemma adjust_bounded (off D : Z) (l : list interval) :
  Forall (fun i : interval => (snd i <= time_of_Z D)%Qc) l ->
  Forall (fun i : interval => (snd i <= time_of_Z (D + off))%Qc) (Splitter.adjust off l).
Proof.
  induction 1 as [|[s e] l H Hl IH]; [constructor|].
  simpl. constructor; [|exact IH]. simpl in *. rewrite time_of_Z_plus.
  apply Qcplus_le_compat; [exact H|apply Qcle_refl].
Qed.

Lemma final_end_le (D : time) (l : list interval) : forall lo,
  (lo <= D)%Qc -> Forall (fun i : interval => (snd i <= D)%Qc) l ->
  (final_end lo l <= D)%Qc.
Proof.
  induction l as [|[s e] l IH]; intros lo Hlo H; [exact Hlo|].
  rewrite TimelineFacts.final_end_cons. inversion H as [|x y Hx Hy]; subst.
  apply IH; assumption.
Qed.

Section Segments.

Variable d : Z.
Variable cached : N -> list interval.
Hypothesis d_nonneg : (0 <= d)%Z.

(** Strictly ascending segments with well-formed caches lay their intervals
    out in time order. *)
Lemma flat_ordered (order : list N) : forall (lo : time) (b : N),
  StronglySorted N.le order -> NoDup order ->
  (forall n, In n order -> (b <= n)%N /\ Segment.within d (cached n)) ->
  (lo <= time_of_Z ((Z.of_N b - 1) * d))%Qc ->
  time_ordered lo
    (flat_map (fun n => Splitter.adjust ((Z.of_N n - 1) * d) (cached n)) order).
Proof.
  induction order as [|n order IH]; intros lo b Hs Hd Hin Hlo; [exact I|].
  inversion Hs as [|x y Hs' Hall]; subst. inversion Hd as [|x y Hnot Hd']; subst.
  destruct (Hin n (or_introl eq_refl)) as (Hbn & Hord & Hbound).
  assert (Hoff : (lo <= time_of_Z ((Z.of_N n - 1) * d))%Qc).
  { eapply Qcle_trans; [exact Hlo|]. apply ChunkerFacts.time_of_Z_le. nia. }
  simpl. apply time_ordered_app.
  - apply time_ordered_weaken with (lo' := (time_of_Z 0 + time_of_Z ((Z.of_N n - 1) * d))%Qc).
    + change (time_of_Z 0) with 0%Qc. rewrite Qcplus_0_l. exact Hoff.
    + apply adjust_ordered. exact Hord.
  - apply (IH _ (n + 1)%N); [exact Hs'|exact Hd'| |].
    + intros m Hm. split; [|apply Hin; simpl; auto].
      rewrite Forall_forall in Hall. pose proof (Hall m Hm) as Hle.
      assert (n <> m) by (intros ->; contradiction). lia.
    + replace ((Z.of_N (n + 1) - 1) * d)%Z with (d + (Z.of_N n - 1) * d)%Z by lia.
      apply final_end_le.
      * eapply Qcle_trans; [exact Hoff|]. apply ChunkerFacts.time_of_Z_le. lia.
      * apply adjust_bounded. exact Hbound.
Qed.

End Segments.

End SegmentFacts.

(** When every segment's cache is time-ordered and stays within its segment,
    the global interval list the Splitter builds from the caches of the
    distinct segments [ns] (numbered from 1) is time-ordered from 0 on,
    whatever the order in which the directory lists the caches. *)
Theorem ordered_caches_load_time_ordered (d thr : Z) (ns : list N) (st : state)
        (cached : N -> list interval) :
  (0 <= d)%Z ->
  NoDup ns ->
  (forall n, In n ns ->
     (1 <= n)%N /\
     Fs.lookup (cache_name n thr) (files st) = Some (Cache (cached n)) /\
     Segment.within d (cached n)) ->
  exists all,
    Splitter.load_all d (Sorter.sort_chunks (map (fun n => cache_name n thr) ns)) st
    = (Ok all, st) /\
    Timeline.time_ordered (time_of_Z 0) all.
Proof.
  intros Hd Hnd Hin.
  pose proof (SorterFacts.sorted_by_perm (@Some N) ns) as Hperm.
  eexists. split.
  - rewrite OrderFacts.sort_cache_names. apply OrderFacts.load_in_order.
    intros n Hn. apply Hin.
    eapply Permutation_in; [apply Permutation_sym; exact Hperm|exact Hn].
  - apply (SegmentFacts.flat_ordered d cached Hd _ _ 1%N).
    + apply Sorted_StronglySorted; [intros x y z; apply N.le_trans|].
      apply OrderFacts.sorted_numbers.
    + eapply Permutation_NoDup; [exact Hperm|exact Hnd].
    + intros n Hn.
      destruct (Hin n) as (H1 & _ & H3);
        [eapply Permutation_in; [apply Permutation_sym; exact Hperm|exact Hn]|].
      split; assumption.
    + simpl. apply Qcle_refl.
Qed.

(** The three caches of the example, listed in the order 10, 2, 1, with
    2700-second segments. *)
Lemma ordered_caches_load_time_ordered_witness :
  exists all,
    Splitter.load_all 2700
      (Sorter.sort_chunks (map (fun n => cache_name n (-40)) [10%N; 2%N; 1%N]))
      (mkState Examples.three_caches [])
    = (Ok all, mkState Examples.three_caches []) /\
    Timeline.time_ordered (time_of_Z 0) all.
Proof.
  apply (ordered_caches_load_time_ordered 2700 (-40) [10%N; 2%N; 1%N]
           (mkState Examples.three_caches []) Examples.three_cached).
  - lia.
  - repeat constructor; simpl; intuition discriminate.
  - intros n [<-|[<-|[<-|[]]]]; (split; [lia|]); (split; [reflexivity|]);
      (split; [simpl; repeat split; vm_compute; discriminate
              |repeat constructor; vm_compute; discriminate]).
Defined.

(** Whenever the interval list loaded from the caches is time-ordered, the
    audio extractions the Splitter issues follow one another without
    overlap, whatever the engine answers and whatever is already on disk:
    each starts no earlier than the previous one stopped (the final one, no
    earlier than the previous one stopped), and a ranged one stops no earlier
    than it starts. *)
Theorem ordered_silences_give_ordered_splits (E : engine) (d thr : Z) (st : state)
        (all : list interval) :
  fst (Splitter.load_all d
         (Sorter.sort_chunks (Splitter.select thr (Fs.listdir (files st)))) st)
  = Ok all ->
  Timeline.time_ordered (time_of_Z 0) all ->
  exists new,
    trace (snd (Splitter.split_original_by_silence E d thr st)) = trace st ++ new /\
    Timeline.ascending_ranges (time_of_Z 0) new.
Proof.
  intros Hload Hord.
  rewrite SplitterRun.split_original_by_silence_stages.
  destruct (SplitterRun.get_audio_codec_trace E st) as [Ht Hf].
  destruct (Splitter.get_audio_codec E st) as [[codec|e] st1]; simpl in Ht, Hf;
    [|exists [Probe]; simpl; split; [exact Ht|exact I]].
  rewrite (PipelineFacts.load_all_on_files d _ st st1) by (symmetry; exact Hf).
  rewrite Hload.
  destruct (TimelineFacts.walk_ascending E (fst codec) (snd codec) all
              Splitter.start_cursor st1 Hord) as (n1 & H1 & A1).
  destruct (Splitter.walk E (fst codec) (snd codec) Splitter.start_cursor all st1)
    as [[c|e] st3] eqn:Hw; simpl in H1.
  - destruct (TimelineFacts.finish_ascending E (fst codec) (snd codec) c st3)
      as (n2 & H2 & A2).
    exists (Probe :: n1 ++ n2). rewrite H2, H1, Ht, <- !app_assoc. simpl.
    split; [reflexivity|]. apply A1.
    rewrite <- (TimelineFacts.walk_final _ _ _ _ _ _ _ _ Hw). exact A2.
  - exists (Probe :: n1). simpl. rewrite H1, Ht, <- app_assoc. simpl.
    split; [reflexivity|]. rewrite <- (app_nil_r n1). apply A1. exact I.
Qed.

(** The scenario directory: one silence, [2000, 2010], in the first of two
    segments. *)
Lemma ordered_silences_give_ordered_splits_witness :
  exists new,
    trace (snd (Splitter.split_original_by_silence Examples.quiet_engine 2700 (-40)
                  (mkState Examples.scenario_dir [])))
    = [] ++ new /\
    Timeline.ascending_ranges (time_of_Z 0) new.
Proof.
  apply (ordered_silences_give_ordered_splits Examples.quiet_engine 2700 (-40)
           (mkState Examples.scenario_dir [])
           [(time_of_Z 2000, time_of_Z 2010)]).
  - reflexivity.
  - simpl. repeat split; vm_compute; discriminate.
Defined.

(** ** Codec and container *)

Module CodecFacts.
Import PyStr.

Lemma split_from_char (sep c : ascii) (r : string) :
  split_from (String sep EmptyString) 0 (String c r) =
  if Ascii.eqb sep c then EmptyString :: split_from (String sep EmptyString) 0 r
  else match split_from (String sep EmptyString) 0 r with
       | t :: ts => String c t :: ts
       | [] => [String c EmptyString]
       end.
Proof.
  change (split_from (String sep EmptyString) 0 (String c r))
    with (if prefix (String sep EmptyString) (String c r)
          then EmptyString :: split_from (String sep EmptyString) 0 r
          else match split_from (String sep EmptyString) 0 r with
               | t :: ts => String c t :: ts
               | [] => [String c EmptyString]
               end).
  rewrite NameFacts.prefix_char. reflexivity.
Qed.

Lemma contains_char (sep c : ascii) (r : string) :
  contains (String sep EmptyString) (String c r)
  = Ascii.eqb sep c || contains (String sep EmptyString) r.
Proof.
  change (contains (String sep EmptyString) (String c r))
    with (prefix (String sep EmptyString) (String c r)
          || contains (String sep EmptyString) r).
  rewrite NameFacts.prefix_char. reflexivity.
Qed.

(** Splitting at a character: the text before its first occurrence comes
    first. *)
Lemma split_first (sep : ascii) (f rest : string) :
  contains (String sep EmptyString) f = false ->
  split (f ++ String sep rest) (String sep EmptyString)
  = f :: split rest (String sep EmptyString).
Proof.
  unfold split. induction f as [|c f IH]; intros H.
  - simpl append. rewrite split_from_char, Ascii.eqb_refl. reflexivity.
  - rewrite contains_char in H. apply orb_false_iff in H as [Hc Hf].
    simpl append. rewrite split_from_char, Hc, (IH Hf). reflexivity.
Qed.

Lemma split_none (sep : ascii) (f : string) :
  contains (String sep EmptyString) f = false ->
  split f (String sep EmptyString) = [f].
Proof.
  unfold split. induction f as [|c f IH]; intros H; [reflexivity|].
  rewrite contains_char in H. apply orb_false_iff in H as [Hc Hf].
  rewrite split_from_char, Hc, (IH Hf). reflexivity.
Qed.

Lemma no_audio_filter (l : list (string * string)) :
  Forall (fun s => fst s <> "audio") l ->
  filter (fun s => String.eqb (fst s) "audio") l = [].
Proof.
  induction 1 as [|s l Hs _ IH]; [reflexivity|].
  simpl. apply String.eqb_neq in Hs. rewrite Hs. exact IH.
Qed.

End CodecFacts.

(** [get_audio_codec] answers with the codec of the first audio stream the
    probe lists, whatever streams come before or after it, and with the
    container name cut at the first comma of [format_name]. *)
Theorem codec_of_first_audio_stream (E : engine) (info : probe_info)
        (pre post : list (string * string)) (c f : string) (more : option string)
        (st : state) :
  probe_answer E = Some info ->
  streams info = pre ++ ("audio", c) :: post ->
  Forall (fun s => fst s <> "audio") pre ->
  PyStr.contains "," f = false ->
  format_name info = match more with
                     | Some m => (f ++ String "," m)%string
                     | None => f
                     end ->
  Splitter.get_audio_codec E st
  = (Ok (c, f), mkState (files st) (trace st ++ [Probe])).
Proof.
  intros Hp Hs Hpre Hf Hn.
  apply (SplitterRun.get_audio_codec_ok E st info); [exact Hp|].
  unfold Splitter.codec_and_container.
  rewrite Hs, filter_app, (CodecFacts.no_audio_filter pre Hpre), Hn. simpl.
  destruct more as [m|].
  - rewrite (CodecFacts.split_first "," f m Hf). reflexivity.
  - rewrite (CodecFacts.split_none "," f Hf). reflexivity.
Qed.

(** The Matroska source of the examples: video first, then the AAC track. *)
Lemma codec_of_first_audio_stream_witness :
  Splitter.get_audio_codec Examples.quiet_engine (mkState [] [])
  = (Ok ("aac", "matroska"), mkState [] [Probe]).
Proof.
  apply (codec_of_first_audio_stream Examples.quiet_engine Examples.source_5400
           [("video", "h264")] [] "aac" "matroska" (Some "webm") (mkState [] []));
    try reflexivity.
  repeat constructor. simpl. discriminate.
Defined.

(** On a source without an audio stream the Splitter stops with a
    [ValueError] right after its first probe: it has listed the directory
    but loads no cache, extracts nothing and writes no file. *)
Theorem no_audio_stream_stops_splitter (E : engine) (info : probe_info)
        (d thr : Z) (st : state) :
  probe_answer E = Some info ->
  Forall (fun s => fst s <> "audio") (streams info) ->
  Splitter.split_original_by_silence E d thr st
  = (Err ValueError, mkState (files st) (trace st ++ [Probe])).
Proof.
  intros Hp Hs. rewrite SplitterRun.split_original_by_silence_stages.
  unfold Splitter.get_audio_codec. run_m. rewrite Hp. simpl.
  unfold Splitter.codec_and_container. rewrite (CodecFacts.no_audio_filter _ Hs).
  reflexivity.
Qed.

(** A source with a video and a subtitle track only, on a directory that
    holds a stray cache name: the stop comes before the caches are read. *)
Lemma no_audio_stream_stops_splitter_witness :
  Splitter.split_original_by_silence Examples.mute_engine 2700 (-40)
    (mkState Examples.stray_dir [])
  = (Err ValueError, mkState Examples.stray_dir [Probe]).
Proof.
  apply (no_audio_stream_stops_splitter Examples.mute_engine Examples.source_mute
           2700 (-40) (mkState Examples.stray_dir [])).
  - reflexivity.
  - repeat constructor; simpl; discriminate.
Defined.

(** ** Degenerate chunk durations *)

Module DegenerateFacts.

(** A negative chunk duration gives a quotient below zero, so [math.ceil]
    answers no positive count. *)
Lemma ceiling_nonpositive (T : time) (d : Z) :
  (time_of_Z 0 <= T)%Qc -> (d < 0)%Z -> (Qceiling (T / time_of_Z d)%Qc <= 0)%Z.
Proof.
  intros HT Hd.
  assert (Hneg : (time_of_Z d < time_of_Z 0)%Qc) by (apply ChunkerFacts.time_of_Z_lt; exact Hd).
  assert (Hnz : time_of_Z d <> time_of_Z 0).
  { intros Heq. rewrite Heq in Hneg. exact (Qclt_not_eq _ _ Hneg eq_refl). }
  assert (Hq : (T / time_of_Z d <= time_of_Z 0)%Qc).
  { destruct (Qclt_le_dec (time_of_Z 0) (T / time_of_Z d)%Qc) as [Hpos|Hle];
      [exfalso|exact Hle].
    assert (Hz : (time_of_Z 0 < - time_of_Z d)%Qc).
    { apply Qclt_minus_iff in Hneg. change (time_of_Z 0) with 0%Qc in *.
      rewrite Qcplus_0_l in Hneg. exact Hneg. }
    pose proof (Qcmult_lt_compat_r _ _ _ Hz Hpos) as Hm.
    change (time_of_Z 0) with 0%Qc in Hm. rewrite Qcmult_0_l in Hm.
    replace (T / time_of_Z d * - time_of_Z d)%Qc with (- T)%Qc in Hm.
    - apply Qcopp_le_compat in HT. change (- time_of_Z 0)%Qc with 0%Qc in HT.
      exact (Qclt_not_le _ _ Hm HT).
    - rewrite <- (Qcmult_div_r T (time_of_Z d) Hnz) at 1. ring. }
  change 0%Z with (Qceiling (inject_Z 0)). apply Qceiling_resp_le. exact Hq.
Qed.

End DegenerateFacts.

(** A chunk duration of zero stops the whole run with a [ZeroDivisionError]
    right after the first probe, and a negative one cuts no segment at all:
    the Chunker returns an empty list without an error.  Either way the
    Chunker issues no extraction and writes no file. *)
Theorem nonpositive_chunk_duration_cuts_nothing (E : engine) (info : probe_info)
        (d thr : Z) (sd : time) (st : state) :
  probe_answer E = Some info ->
  (time_of_Z 0 <= duration info)%Qc ->
  (d <= 0)%Z ->
  Chunker.extract_audio_chunks E d st
  = (if (d =? 0)%Z then Err ZeroDivisionError else Ok [],
     mkState (files st) (trace st ++ [Probe])) /\
  Pipeline.process_mkv_file E 0 thr sd st
  = (Err ZeroDivisionError, mkState (files st) (trace st ++ [Probe])).
Proof.
  intros Hp HT Hd. split.
  - unfold Chunker.extract_audio_chunks, Chunker.num_chunks, bind, probe, lift.
    rewrite Hp. cbn [of_option].
    destruct (Z.eqb_spec d 0) as [->|Hne]; [reflexivity|].
    assert (Hc : (Qceiling (duration info / time_of_Z d)%Qc <= 0)%Z)
      by (apply DegenerateFacts.ceiling_nonpositive; [exact HT|lia]).
    replace (Z.to_nat (Qceiling (duration info / time_of_Z d)%Qc)) with 0%nat by lia.
    reflexivity.
  - rewrite PipelineFacts.process_mkv_file_stages.
    unfold Chunker.extract_audio_chunks, Chunker.num_chunks. run_m. rewrite Hp.
    reflexivity.
Qed.

(** The 5400-second source cut with a chunk duration of -2700. *)
Lemma nonpositive_chunk_duration_cuts_nothing_witness :
  Chunker.extract_audio_chunks Examples.quiet_engine (-2700) (mkState [] [])
  = (Ok [], mkState [] [Probe]).
Proof.
  refine (proj1 (nonpositive_chunk_duration_cuts_nothing Examples.quiet_engine
                   Examples.source_5400 (-2700) (-40) two (mkState [] []) _ _ _)).
  - reflexivity.
  - vm_compute. discriminate.
  - lia.
Defined.

(** ** Reading the detector's output *)

Module TranscriptFacts.
Import Transcript.

Lemma run_filter (lines : list string) : forall v,
  Detector.run v (filter marked lines) = Detector.run v lines.
Proof.
  induction lines as [|l lines IH]; intros v; [reflexivity|].
  simpl. unfold marked at 1.
  destruct (Stream.has_start l) eqn:Hs; simpl.
  - destruct (Detector.step v l); simpl; [apply IH|reflexivity].
  - destruct (Stream.has_end l) eqn:He; simpl.
    + destruct (Detector.step v l); simpl; [apply IH|reflexivity].
    + rewrite (DetectorFacts.step_other v l Hs He). simpl. apply IH.
Qed.

Lemma run_events (evs : list event) : forall v,
  Forall well_read evs ->
  exists s,
    Detector.run v (lines_of evs)
    = Ok (Detector.mkVars s (Detector.silences v ++ intervals_of evs)).
Proof.
  induction evs as [|ev evs IH]; intros v H.
  - exists (Detector.start v). simpl. rewrite app_nil_r. destruct v; reflexivity.
  - inversion H as [|x y (H1 & H2 & H3 & H4 & H5 & H6) Hrest]; subst.
    simpl.
    rewrite (DetectorFacts.step_start_only v _ _ H1 H2 H3). simpl.
    rewrite (DetectorFacts.step_end_only
               (Detector.mkVars (Some (start_at ev)) (Detector.silences v))
               _ (start_at ev) (end_at ev) H4 H5 eq_refl H6).
    simpl. destruct (IH (Detector.mkVars (Some (start_at ev))
                           (Detector.silences v ++ [(start_at ev, end_at ev)])) Hrest)
      as [s Hs].
    exists s. rewrite Hs. simpl. rewrite <- app_assoc. reflexivity.
Qed.

End TranscriptFacts.

(** Lines that hold neither marker play no part in the reading: dropping
    them changes neither the list returned nor the error raised. *)
Theorem detector_ignores_unmarked_lines (lines : list string) :
  Detector.parse (filter Transcript.marked lines) = Detector.parse lines.
Proof.
  unfold Detector.parse. rewrite TranscriptFacts.run_filter. reflexivity.
Qed.

(** When the marked lines of the output are start lines and end lines in
    alternation, each reading well, the result is exactly the list of the
    (start, end) pairs in the order of the output, whatever other lines are
    interleaved. *)
Theorem detector_reads_alternating_stream (lines : list string)
        (evs : list Transcript.event) :
  Forall Transcript.well_read evs ->
  filter Transcript.marked lines = Transcript.lines_of evs ->
  Detector.parse lines = Ok (Transcript.intervals_of evs).
Proof.
  intros Hev Hl. unfold Detector.parse.
  rewrite <- TranscriptFacts.run_filter, Hl.
  destruct (TranscriptFacts.run_events evs Detector.init Hev) as [s Hs].
  rewrite Hs. reflexivity.
Qed.

(** The three lines of the example: a start at 12.5, a progress line, an end
    at 15.25. *)
Lemma detector_reads_alternating_stream_witness :
  Detector.parse Examples.two_markers
  = Ok (Transcript.intervals_of [Examples.two_markers_event]).
Proof.
  apply (detector_reads_alternating_stream Examples.two_markers
           [Examples.two_markers_event]).
  - repeat constructor; reflexivity.
  - reflexivity.
Defined.

(** ** Every new file comes from a successful engine call *)

Module ProvenanceFacts.
Import Run Provenance.

Section WithEngine.

Variable E : engine.




















End WithEngine.

End ProvenanceFacts.




(** ** No call for what is already there *)

Module SparingFacts.
Import Run Provenance.

Lemma targets_app (a b : list call) : targets (a ++ b) = targets a ++ targets b.
Proof. unfold targets. apply flat_map_app. Qed.

Lemma absent_kept fs fs' name :
  keeps fs fs' -> Fs.present name fs' = false -> Fs.present name fs = false.
Proof.
  intros Hk H. destruct (Fs.present name fs) eqn:Hp; [|reflexivity].
  rewrite (RunFacts.keeps_present _ _ _ Hk Hp) in H. discriminate.
Qed.

Lemma spares_pure {A} (m : M A) (st : state) : snd (m st) = st -> spares m st.
Proof.
  intros H. unfold spares, sparing. rewrite H.
  split; [apply RunFacts.keeps_refl|]. exists []. rewrite app_nil_r.
  split; [reflexivity|]. split; [constructor|]. split; constructor.
Qed.

Lemma spares_probe E st : spares (probe E) st.
Proof.
  split; [apply RunFacts.keeps_refl|]. exists [Probe].
  split; [reflexivity|]. split; [constructor|]. split; constructor.
Qed.

Lemma spares_bind {A B} (m : M A) (k : A -> M B) (st : state) :
  spares m st ->
  (forall a st1, m st = (Ok a, st1) -> spares (k a) st1) ->
  spares (bind m k) st.
Proof.
  unfold spares, bind. intros Hm Hk.
  destruct (m st) as [[a|e] st1] eqn:Hms.
  2:{ destruct Hm as (K1 & n1 & T1 & F1 & D1 & _). split; [exact K1|].
      exists n1. split; [exact T1|]. split; [exact F1|]. split; [exact D1|].
      intros b Hb. discriminate Hb. }
  destruct Hm as (K1 & n1 & T1 & F1 & D1 & P1). simpl in *.
  specialize (P1 a eq_refl).
  destruct (Hk a st1 eq_refl) as (K2 & n2 & T2 & F2 & D2 & P2).
  split; [eapply RunFacts.keeps_trans; eauto|].
  exists (n1 ++ n2). rewrite T2, T1, app_assoc, targets_app.
  split; [reflexivity|]. split; [|split].
  - apply Forall_app. split; [exact F1|].
    eapply Forall_impl; [|exact F2]. intros o Ho. eapply absent_kept; eauto.
  - apply NoDup_app; [exact D1|exact D2|].
    intros o H1 H2. rewrite Forall_forall in P1, F2.
    pose proof (F2 o H2) as Hab. rewrite (P1 o H1) in Hab. discriminate Hab.
  - intros b Hb. apply Forall_app. split; [|exact (P2 b Hb)].
    eapply Forall_impl; [|exact P1]. intros o Ho.
    eapply RunFacts.keeps_present; eauto.
Qed.

Lemma spares_for_each {A B} (f : A -> M B) (l : list A) :
  (forall a st, spares (f a) st) -> forall st, spares (for_each f l) st.
Proof.
  intros Hf. induction l as [|a l IH]; intros st; simpl.
  - apply spares_pure. reflexivity.
  - apply spares_bind; [apply Hf|]. intros b st1 _.
    apply spares_bind; [apply IH|]. intros bs st2 _. apply spares_pure. reflexivity.
Qed.

(** One call for a missing file, which is there if all ended well. *)
Lemma sparing_single {A} (st st' : state) (r : result A) (c : call) (out : string) :
  target c = Some out ->
  Fs.present out (files st) = false ->
  keeps (files st) (files st') ->
  trace st' = trace st ++ [c] ->
  (forall a, r = Ok a -> Fs.present out (files st') = true) ->
  sparing st (r, st').
Proof.
  intros Ht Hab Hk Htr Hok. split; [exact Hk|]. exists [c]. simpl.
  unfold targets. simpl. rewrite Ht. simpl.
  split; [exact Htr|]. split; [constructor; [exact Hab|constructor]|].
  split; [constructor; [intros []|constructor]|].
  intros a Ha. constructor; [exact (Hok a Ha)|constructor].
Qed.

Section WithEngine.

Variable E : engine.

Lemma spares_run_to (c : call) (out : string) (kind : content) (st : state) :
  target c = Some out ->
  Fs.present out (files st) = false ->
  spares (run_to E c out kind) st.
Proof.
  intros Ht Hab. unfold spares, run_to, bind, run, write_file. simpl.
  destruct (succeeds E c); simpl.
  - apply (sparing_single st _ _ c out Ht Hab); simpl.
    + apply RunFacts.keeps_write. exact Hab.
    + reflexivity.
    + intros _ _. apply FsFacts.present_write_same.
  - apply (sparing_single st _ _ c out Ht Hab); simpl.
    + apply RunFacts.keeps_refl.
    + reflexivity.
    + intros a Ha. discriminate Ha.
Qed.

Lemma spares_guarded {B} (c : call) (out : string) (kind : content)
      (k : unit -> M B) (st : state) :
  target c = Some out ->
  (forall u st1, spares (k u) st1) ->
  spares (bind (exists_ out)
               (fun there => bind (if there then ret tt else run_to E c out kind) k)) st.
Proof.
  intros Ht Hk. apply spares_bind; [apply spares_pure; reflexivity|].
  intros there st1 H. unfold exists_ in H. injection H as <- <-.
  apply spares_bind; [|intros u st1 _; apply Hk].
  destruct (Fs.present out (files st)) eqn:Hp.
  - apply spares_pure. reflexivity.
  - apply spares_run_to; assumption.
Qed.

Lemma spares_extract_audio_chunks d st : spares (Chunker.extract_audio_chunks E d) st.
Proof.
  unfold Chunker.extract_audio_chunks.
  apply spares_bind; [apply spares_probe|]. intros info st1 _.
  apply spares_bind; [apply spares_pure; reflexivity|]. intros n st2 _.
  apply spares_for_each. intros i st3. unfold Chunker.extract_chunk.
  apply spares_guarded; [reflexivity|]. intros u st4. apply spares_pure. reflexivity.
Qed.

Lemma spares_detect_chunk thr sd f st : spares (Pipeline.detect_chunk E thr sd f) st.
Proof.
  unfold Pipeline.detect_chunk.
  apply spares_bind; [apply spares_pure; reflexivity|].
  intros cached st1 H. unfold exists_ in H. injection H as <- <-.
  destruct (Fs.present (Pipeline.silence_cache_file thr f) (files st)) eqn:Hp;
    [apply spares_pure; reflexivity|].
  unfold spares, Pipeline.detect_silence, bind, run, lift, write_file. simpl.
  destruct (succeeds E _); simpl.
  - destruct (Detector.parse _) as [l|e]; simpl.
    + apply (sparing_single st _ _ (SilenceDetect f thr sd) _ eq_refl Hp); simpl.
      * apply RunFacts.keeps_write. exact Hp.
      * reflexivity.
      * intros _ _. apply FsFacts.present_write_same.
    + apply (sparing_single st _ _ (SilenceDetect f thr sd) _ eq_refl Hp); simpl.
      * apply RunFacts.keeps_refl.
      * reflexivity.
      * intros a Ha. discriminate Ha.
  - apply (sparing_single st _ _ (SilenceDetect f thr sd) _ eq_refl Hp); simpl.
    + apply RunFacts.keeps_refl.
    + reflexivity.
    + intros a Ha. discriminate Ha.
Qed.

Lemma spares_load_all d fs st : spares (Splitter.load_all d fs) st.
Proof. apply spares_pure. apply SplitterRun.load_all_state. Qed.

Lemma spares_visit codec fmt c silence st :
  spares (Splitter.visit E codec fmt c silence) st.
Proof.
  destruct silence as [s e]. unfold Splitter.visit.
  destruct (ltb _ _); [apply spares_pure; reflexivity|].
  apply spares_guarded; [reflexivity|]. intros u st1.
  unfold Splitter.extract_middle_frame.
  apply spares_guarded; [reflexivity|]. intros u' st2. apply spares_pure. reflexivity.
Qed.

Lemma spares_walk codec fmt all : forall c st,
  spares (Splitter.walk E codec fmt c all) st.
Proof.
  induction all as [|silence all IH]; intros c st; simpl.
  - apply spares_pure. reflexivity.
  - apply spares_bind; [apply spares_visit|]. intros c1 st1 _. apply IH.
Qed.

Lemma spares_finish codec fmt c st : spares (Splitter.finish E codec fmt c) st.
Proof.
  unfold Splitter.finish. apply spares_guarded; [reflexivity|]. intros u st1.
  apply spares_bind; [apply spares_pure; reflexivity|].
  intros pictured st2 H. unfold exists_ in H. injection H as <- <-.
  destruct (Fs.present (Splitter.split_name (Splitter.split_count c) "jpg") (files st1))
    eqn:Hp; [apply spares_pure; reflexivity|].
  apply spares_bind; [apply spares_probe|].
  intros info st2 H. unfold probe in H. injection H as _ <-.
  unfold Splitter.extract_middle_frame. apply spares_run_to; [reflexivity|exact Hp].
Qed.

Lemma spares_split_original_by_silence d thr st :
  spares (Splitter.split_original_by_silence E d thr) st.
Proof.
  unfold Splitter.split_original_by_silence.
  apply spares_bind; [apply spares_pure; reflexivity|]. intros names st1 _.
  apply spares_bind.
  { unfold Splitter.get_audio_codec.
    apply spares_bind; [apply spares_probe|]. intros info st2 _.
    apply spares_pure. reflexivity. }
  intros codec st2 _.
  apply spares_bind; [apply spares_load_all|]. intros all st3 _.
  apply spares_bind; [apply spares_walk|]. intros c st4 _. apply spares_finish.
Qed.

End WithEngine.

End SparingFacts.

(** A run calls the engine for an output (a segment, a cache, a split, a
    thumbnail) only when that file is missing from the directory it starts
    on, and never twice for the same file: apart from the probes, the calls
    of a run target pairwise distinct files that did not exist.  This holds
    for runs that fail as well. *)
Theorem calls_only_for_missing_outputs (E : engine) (d thr : Z) (sd : time)
        (st : state) :
  exists new,
    trace (snd (Pipeline.process_mkv_file E d thr sd st)) = trace st ++ new /\
    Forall (fun out => Fs.present out (files st) = false) (Provenance.targets new) /\
    NoDup (Provenance.targets new).
Proof.
  assert (H : Provenance.spares (Pipeline.process_mkv_file E d thr sd) st).
  { unfold Pipeline.process_mkv_file.
    apply SparingFacts.spares_bind; [apply SparingFacts.spares_extract_audio_chunks|].
    intros chunk_files st1 _.
    apply SparingFacts.spares_bind.
    { apply SparingFacts.spares_for_each. intros f st2.
      apply SparingFacts.spares_detect_chunk. }
    intros done st2 _. apply SparingFacts.spares_split_original_by_silence. }
  destruct H as (_ & new & Ht & Hf & Hd & _). exists new. auto.
Qed.

(** ** When the run succeeds *)

Module TotalFacts.
Import Directory.

Lemma sound_write thr fs name k :
  sound thr fs ->
  Fs.present name fs = false ->
  (In name (Splitter.select thr [name]) ->
   (exists l, k = Cache l) /\ (exists idx, Splitter.chunk_idx name = Ok idx)) ->
  sound thr (Fs.write name k fs).
Proof.
  intros Hs Hab Hnew name' Hin.
  rewrite FsFacts.listdir_write_new in Hin by exact Hab.
  unfold Splitter.select in Hin. rewrite filter_app in Hin.
  apply in_app_or in Hin as [Hold|Hhere].
  - destruct (Hs name' Hold) as [[l Hl] Hidx].
    assert (Hne : name' <> name).
    { intros ->. unfold Fs.present in Hab. rewrite Hl in Hab. discriminate. }
    rewrite FsFacts.lookup_write_other by exact Hne. split; [eauto|exact Hidx].
  - assert (Heq : name' = name).
    { apply filter_In in Hhere as [[<-|[]] _]. reflexivity. }
    subst name'. destruct (Hnew Hhere) as [[l ->] Hidx].
    rewrite FsFacts.lookup_write_same. split; [eauto|exact Hidx].
Qed.

(** A segment name never carries the cache suffix. *)
Lemma wav_not_cache i thr :
  PyStr.endswith (Chunker.chunk_name i) (Splitter.cache_suffix thr) = false.
Proof.
  unfold PyStr.endswith, Chunker.chunk_name, Splitter.cache_suffix.
  rewrite <- !NameFacts.append_assoc, !NameFacts.rev_append. simpl.
  reflexivity.
Qed.


Section Working.

Variable E : engine.
Hypothesis works : forall x, succeeds E x = true.






End Working.

End TotalFacts.



(** ** The threshold in the cache name *)

Module KeyFacts.
Import PyStr.

Lemma str_Z_inj (a b : Z) : str_Z a = str_Z b -> a = b.
Proof.
  unfold str_Z. intros H. apply (f_equal NilZero.int_of_string) in H.
  assert (Hn : forall z, Z.to_int z <> Decimal.Pos Decimal.Nil /\
                         Z.to_int z <> Decimal.Neg Decimal.Nil).
  { intros [|p|p]; simpl; split; try discriminate;
      intros Heq; injection Heq as Heq;
      exact (DecimalPos.Unsigned.to_uint_nonnil p Heq). }
  rewrite !NilZero.isi in H by apply Hn.
  injection H as H. apply DecimalZ.to_int_inj. exact H.
Qed.

Lemma prefix_nil (s : string) : prefix EmptyString s = true.
Proof. destruct s; reflexivity. Qed.

Lemma prefix_cons (a b : ascii) (s1 s2 : string) :
  prefix (String a s1) (String b s2) = if Ascii.eqb a b then prefix s1 s2 else false.
Proof.
  simpl. destruct (ascii_dec a b) as [->|Hne].
  - rewrite Ascii.eqb_refl. reflexivity.
  - apply Ascii.eqb_neq in Hne. rewrite Hne. reflexivity.
Qed.

Lemma prefix_same (a x y : string) : prefix (a ++ x) (a ++ y) = prefix x y.
Proof.
  induction a as [|c a IH]; [reflexivity|].
  simpl append. rewrite prefix_cons, Ascii.eqb_refl. exact IH.
Qed.

Lemma prefix_self (a y : string) : prefix a (a ++ y) = true.
Proof.
  induction a as [|c a IH]; [apply prefix_nil|].
  simpl append. rewrite prefix_cons, Ascii.eqb_refl. exact IH.
Qed.

Lemma digits_no_underscore (s : string) :
  all_digits s = true -> contains "_" s = false.
Proof.
  induction s as [|c s IH]; intros H; [reflexivity|].
  simpl in H. apply andb_true_iff in H as [Hc Hs].
  rewrite CodecFacts.contains_char, (IH Hs), orb_false_r.
  destruct (Ascii.eqb_spec "_" c) as [<-|_]; [discriminate Hc|reflexivity].
Qed.

Lemma contains_append (c : ascii) (a b : string) :
  contains (String c EmptyString) (a ++ b)
  = contains (String c EmptyString) a || contains (String c EmptyString) b.
Proof.
  induction a as [|x a IH]; [reflexivity|].
  simpl append. rewrite !CodecFacts.contains_char, IH. apply orb_assoc.
Qed.

Lemma contains_rev (c : ascii) (s : string) :
  contains (String c EmptyString) (rev s) = contains (String c EmptyString) s.
Proof.
  induction s as [|x s IH]; [reflexivity|].
  simpl rev. rewrite contains_append, IH, !CodecFacts.contains_char.
  change (contains (String c EmptyString) EmptyString) with false.
  rewrite orb_false_r. apply orb_comm.
Qed.

Lemma str_Z_no_underscore (z : Z) : contains "_" (str_Z z) = false.
Proof.
  assert (Hu : forall u, contains "_" (NilZero.string_of_uint u) = false).
  { intros u. apply digits_no_underscore. unfold NilZero.string_of_uint.
    destruct u; try reflexivity; apply NameFacts.all_digits_uint. }
  unfold str_Z. destruct (Z.to_int z) as [u|u]; simpl NilZero.string_of_int.
  - apply Hu.
  - rewrite CodecFacts.contains_char, Hu. reflexivity.
Qed.

(** Two texts without an underscore, each followed by one: the first is a
    prefix of the second only when the texts are equal. *)
Lemma prefix_until_underscore (a : string) : forall (b x y : string),
  contains "_" a = false -> contains "_" b = false ->
  prefix (a ++ String "_" x) (b ++ String "_" y) = true -> a = b.
Proof.
  induction a as [|c a IH]; intros [|c' b] x y Ha Hb H.
  - reflexivity.
  - exfalso. simpl append in H. rewrite prefix_cons in H.
    rewrite CodecFacts.contains_char in Hb. apply orb_false_iff in Hb as [Hc _].
    rewrite Hc in H. discriminate.
  - exfalso. simpl append in H. rewrite prefix_cons in H.
    rewrite CodecFacts.contains_char in Ha. apply orb_false_iff in Ha as [Hc _].
    rewrite Ascii.eqb_sym, Hc in H. discriminate.
  - simpl append in H. rewrite prefix_cons in H.
    rewrite CodecFacts.contains_char in Ha, Hb.
    apply orb_false_iff in Ha as [_ Ha]. apply orb_false_iff in Hb as [_ Hb].
    destruct (Ascii.eqb_spec c c') as [->|_]; [|discriminate].
    f_equal. exact (IH b x y Ha Hb H).
Qed.

(** A cache name ends with the suffix of a threshold exactly when it was
    built for that threshold. *)
Lemma endswith_cache_suffix (n : N) (thr thr' : Z) :
  endswith (cache_name n thr') (Splitter.cache_suffix thr) = (thr =? thr')%Z.
Proof.
  unfold endswith, cache_name, Splitter.cache_suffix.
  rewrite !NameFacts.rev_append.
  change (rev ".json") with "nosj."%string.
  change (rev "_silence_") with "_ecnelis_"%string.
  rewrite !NameFacts.append_assoc, prefix_same.
  destruct (Z.eqb_spec thr thr') as [->|Hne].
  - rewrite <- NameFacts.append_assoc. apply prefix_self.
  - destruct (prefix _ _) eqn:Hp; [exfalso|reflexivity].
    apply Hne, str_Z_inj.
    rewrite <- (NameFacts.rev_involutive (str_Z thr)),
            <- (NameFacts.rev_involutive (str_Z thr')).
    f_equal.
    apply (prefix_until_underscore _ _ "ecnelis_"
             ("ecnelis_" ++ rev (str_N n) ++ rev "chunk_"));
      [rewrite contains_rev; apply str_Z_no_underscore
      |rewrite contains_rev; apply str_Z_no_underscore
      |exact Hp].
Qed.

End KeyFacts.

(** The threshold is part of the cache key: among the caches of a directory
    the Splitter selects those that were written for its own threshold and
    none that were written for another one. *)
Theorem threshold_is_part_of_the_cache_key (thr thr' : Z) (ns : list N) :
  Splitter.select thr (map (fun n => cache_name n thr') ns)
  = if (thr =? thr')%Z then map (fun n => cache_name n thr') ns else [].
Proof.
  unfold Splitter.select. induction ns as [|n ns IH].
  - destruct (thr =? thr')%Z; reflexivity.
  - simpl. rewrite KeyFacts.endswith_cache_suffix, IH.
    destruct (thr =? thr')%Z; reflexivity.
Qed.

(** ** The splits are the spans between the silences *)

Module GapFacts.
Import Timeline.



Section Walk.

Variable E : engine.
Variables codec fmt : string.
Hypothesis works : forall x, succeeds E x = true.
Hypothesis fmt_audio : fmt <> "jpg".


End Walk.

End GapFacts.



(** ** A run leaves a directory that later runs can read *)

Module ResumeFacts.
Import Directory Resume.

Lemma ks_pure {A} thr (m : M A) (st : state) : snd (m st) = st -> keeps_sound thr m st.
Proof. intros H Hs. rewrite H. exact Hs. Qed.

Lemma ks_trace {A} thr (m : M A) (st : state) :
  files (snd (m st)) = files st -> keeps_sound thr m st.
Proof. intros H Hs. rewrite H. exact Hs. Qed.

Lemma ks_bind {A B} thr (m : M A) (k : A -> M B) (st : state) :
  keeps_sound thr m st ->
  (forall a st1, m st = (Ok a, st1) -> keeps_sound thr (k a) st1) ->
  keeps_sound thr (bind m k) st.
Proof.
  unfold keeps_sound, bind. intros Hm Hk Hs.
  destruct (m st) as [[a|e] st1] eqn:Hms; simpl in *; [|exact (Hm Hs)].
  exact (Hk a st1 eq_refl (Hm Hs)).
Qed.

Lemma ks_for_each {A B} thr (f : A -> M B) (l : list A) :
  (forall a, In a l -> forall st, keeps_sound thr (f a) st) ->
  forall st, keeps_sound thr (for_each f l) st.
Proof.
  induction l as [|a l IH]; intros Hf st; simpl.
  - apply ks_pure. reflexivity.
  - apply ks_bind; [apply Hf; simpl; auto|]. intros b st1 _.
    apply ks_bind; [apply IH; intros x Hx; apply Hf; simpl; auto|].
    intros bs st2 _. apply ks_pure. reflexivity.
Qed.

Lemma not_selected thr name :
  PyStr.endswith name (Splitter.cache_suffix thr) = false ->
  In name (Splitter.select thr [name]) -> False.
Proof.
  intros H. unfold Splitter.select. simpl. rewrite H. intros [].
Qed.

Section WithEngine.

Variable E : engine.

(** A guarded output whose name does not carry the cache suffix. *)
Lemma ks_guarded {B} thr (c : call) (out : string) (kind : content)
      (k : unit -> M B) (st : state) :
  PyStr.endswith out (Splitter.cache_suffix thr) = false ->
  (forall u st1, keeps_sound thr (k u) st1) ->
  keeps_sound thr
    (bind (exists_ out)
          (fun there => bind (if there then ret tt else run_to E c out kind) k)) st.
Proof.
  intros Hout Hk. apply ks_bind; [apply ks_pure; reflexivity|].
  intros there st1 H. unfold exists_ in H. injection H as <- <-.
  apply ks_bind; [|intros u st1 _; apply Hk].
  destruct (Fs.present out (files st)) eqn:Hp; [apply ks_pure; reflexivity|].
  intros Hs. unfold run_to, bind, run, write_file. simpl.
  destruct (succeeds E c); simpl; [|exact Hs].
  apply TotalFacts.sound_write; [exact Hs|exact Hp|].
  intros Hin. destruct (not_selected thr out Hout Hin).
Qed.

Lemma ks_extract_audio_chunks thr d st :
  keeps_sound thr (Chunker.extract_audio_chunks E d) st.
Proof.
  unfold Chunker.extract_audio_chunks.
  apply ks_bind; [apply ks_trace; reflexivity|]. intros info st1 _.
  apply ks_bind; [apply ks_pure; reflexivity|]. intros n st2 _.
  apply ks_for_each. intros i _ st3. unfold Chunker.extract_chunk.
  apply ks_guarded; [apply TotalFacts.wav_not_cache|].
  intros u st4. apply ks_pure. reflexivity.
Qed.

Lemma ks_detect_chunk thr sd i st :
  keeps_sound thr (Pipeline.detect_chunk E thr sd (Chunker.chunk_name i)) st.
Proof.
  intros Hs. unfold Pipeline.detect_chunk, bind at 1, exists_. simpl.
  destruct (Fs.present (Pipeline.silence_cache_file thr (Chunker.chunk_name i))
                       (files st)) eqn:Hp; [exact Hs|].
  unfold Pipeline.detect_silence, bind, run, lift, write_file. simpl.
  destruct (succeeds E _); simpl; [|exact Hs].
  destruct (Detector.parse _) as [l|e]; simpl; [|exact Hs].
  apply TotalFacts.sound_write; [exact Hs|exact Hp|]. intros _.
  split; [eauto|]. rewrite silence_cache_file_chunk, chunk_idx_cache_name. eauto.
Qed.

Lemma ks_walk thr codec fmt all :
  plain_container thr fmt ->
  forall c st, keeps_sound thr (Splitter.walk E codec fmt c all) st.
Proof.
  intros Hfmt. induction all as [|[s e] all IH]; intros c st; simpl.
  - apply ks_pure. reflexivity.
  - apply ks_bind; [|intros c1 st1 _; apply IH].
    unfold Splitter.visit. destruct (ltb _ _); [apply ks_pure; reflexivity|].
    apply ks_guarded; [apply Hfmt|]. intros u st1.
    unfold Splitter.extract_middle_frame.
    apply ks_guarded; [apply RerunFacts.jpg_not_cache|].
    intros u' st2. apply ks_pure. reflexivity.
Qed.

Lemma ks_finish thr codec fmt c st :
  plain_container thr fmt ->
  keeps_sound thr (Splitter.finish E codec fmt c) st.
Proof.
  intros Hfmt. unfold Splitter.finish. apply ks_guarded; [apply Hfmt|]. intros u st1.
  apply ks_bind; [apply ks_pure; reflexivity|].
  intros pictured st2 H. unfold exists_ in H. injection H as <- <-.
  destruct (Fs.present (Splitter.split_name (Splitter.split_count c) "jpg") (files st1))
    eqn:Hp; [apply ks_pure; reflexivity|].
  apply ks_bind; [apply ks_trace; reflexivity|].
  intros info st2 H. unfold probe in H. injection H as _ <-.
  intros Hs. unfold Splitter.extract_middle_frame, run_to, bind, run, write_file. simpl.
  destruct (succeeds E _); simpl; [|exact Hs].
  apply TotalFacts.sound_write; [exact Hs|exact Hp|].
  intros Hin. destruct (not_selected thr _ (RerunFacts.jpg_not_cache _ thr) Hin).
Qed.

End WithEngine.

End ResumeFacts.

(** Whatever happens during a run, it leaves a directory that a later run
    can read: if every cache-suffixed file was a well-named cache before,
    this is still so afterwards, also when the run stopped on an error.
    Together with the previous theorems, a run that failed half-way can be
    started again and picks up where it stopped.  (The container name must
    not make a split file look like a sidecar cache.) *)
Theorem run_keeps_directory_sound (E : engine) (d thr : Z) (sd : time) (st : state) :
  (forall info codec,
      probe_answer E = Some info ->
      Splitter.codec_and_container info = Ok codec ->
      Resume.plain_container thr (snd codec)) ->
  Directory.sound thr (files st) ->
  Directory.sound thr (files (snd (Pipeline.process_mkv_file E d thr sd st))).
Proof.
  intros Hfmt.
  change (Resume.keeps_sound thr (Pipeline.process_mkv_file E d thr sd) st).
  unfold Pipeline.process_mkv_file.
  apply ResumeFacts.ks_bind; [apply ResumeFacts.ks_extract_audio_chunks|].
  intros chunk_files st1 Hch.
  assert (Hnames : exists ixs, chunk_files = map Chunker.chunk_name ixs).
  { revert Hch. unfold Chunker.extract_audio_chunks, bind at 1.
    destruct (probe E st) as [[info|e] sta]; [|discriminate].
    unfold bind at 1, lift.
    destruct (Chunker.num_chunks (duration info) d) as [n|e]; [|discriminate].
    intros Hch. apply RerunFacts.chunks_done in Hch as [-> _]. eauto. }
  destruct Hnames as [ixs ->].
  apply ResumeFacts.ks_bind.
  { apply ResumeFacts.ks_for_each. intros f Hf st2.
    apply in_map_iff in Hf as (i & <- & _). apply ResumeFacts.ks_detect_chunk. }
  intros done st2 _.
  unfold Splitter.split_original_by_silence.
  apply ResumeFacts.ks_bind; [apply ResumeFacts.ks_pure; reflexivity|].
  intros names st3 _.
  apply ResumeFacts.ks_bind.
  { apply ResumeFacts.ks_trace. unfold Splitter.get_audio_codec, bind, probe, lift.
    destruct (probe_answer E); reflexivity. }
  intros codec st4 Hc.
  assert (Hplain : Resume.plain_container thr (snd codec)).
  { revert Hc. unfold Splitter.get_audio_codec, bind, probe, lift.
    destruct (probe_answer E) as [info|] eqn:Hp; [|discriminate]. simpl.
    destruct (Splitter.codec_and_container info) as [cc|e] eqn:Hcc; [|discriminate].
    intros H. injection H as <- _. exact (Hfmt info cc eq_refl Hcc). }
  apply ResumeFacts.ks_bind;
    [apply ResumeFacts.ks_pure; apply SplitterRun.load_all_state|].
  intros all st5 _.
  apply ResumeFacts.ks_bind; [apply ResumeFacts.ks_walk; exact Hplain|].
  intros c st6 _. apply ResumeFacts.ks_finish. exact Hplain.
Qed.

(** The engine of the example on the directory that holds the cache of the
    first segment only. *)
Lemma run_keeps_directory_sound_witness :
  Directory.sound (-40)
    (files (snd (Pipeline.process_mkv_file Examples.talk_engine 2700 (-40) two
                   (mkState Examples.first_cache [])))).
Proof.
  apply (run_keeps_directory_sound Examples.talk_engine 2700 (-40) two
           (mkState Examples.first_cache [])).
  - intros info codec Hp Hc k. injection Hp as <-. injection Hc as <-.
    unfold PyStr.endswith, Splitter.split_name, Splitter.cache_suffix.
    rewrite <- !NameFacts.append_assoc, !NameFacts.rev_append. reflexivity.
  - intros name [<-|[]]. split; eexists; reflexivity.
Defined.
